(** * Session core of the broker (session/session.go)

    A shallow embedding of the session operations [update], [Push],
    [subscribe], [unsubscribe], [will], [cleanWill], [matchQOS] and
    [persistent], followed by the properties of routing, subscription
    bookkeeping and persistence established for them.

    The session mutex is not modelled: every operation below is one
    critical section, executed atomically on an explicit session state. *)

From Stdlib Require Import Ascii String NArith.
From stdpp Require Import base option list gmap strings fin_maps fin_sets.

Open Scope string_scope.
Open Scope list_scope.
Open Scope N_scope.

(** Go's [error] values are modelled by their message. *)
Abbreviation error := string (only parsing).

(** ** Package mqtt: subscriptions, messages and the subscription matcher *)
Module mqtt.

(** A QoS level; the code only ever compares levels with [0]. *)
Abbreviation QOS := N (only parsing).

Record Subscription := { SubTopic : string; SubQOS : QOS }.

(** The routing context of a message, and the message itself. *)
Record MsgContext := { QOS_ : QOS; Topic : string }.

Record Message := { Ctx : MsgContext; Content : string }.

(** Topic levels: the segments of a topic between the separators "/". *)
Fixpoint levels (s : string) : list string :=
  match s with
  | EmptyString => [EmptyString]
  | String c r =>
      if Ascii.eqb c "/"%char then EmptyString :: levels r
      else match levels r with
           | [] => [String c EmptyString]
           | l :: ls => String c l :: ls
           end
  end.

(** Modelled from the spec: wildcard matching of a topic pattern against
    the topic of an event, level by level.  The single level wildcard "+"
    stands for exactly one level, the multi level wildcard "#" in last
    position for all the remaining levels (also for none). *)
Fixpoint match_levels (pattern topic : list string) : bool :=
  match pattern, topic with
  | ["#"], _ => true
  | [], [] => true
  | p :: ps, t :: ts =>
      (String.eqb p "+" || String.eqb p t) && match_levels ps ts
  | _, _ => false
  end.

Definition topic_match (pattern topic : string) : bool :=
  match_levels (levels pattern) (levels topic).

(** Modelled from the spec: the subscription matcher ([mqtt.Trie]), which
    "maps topic patterns to subscribed QoS levels" and "returns the set of
    QoS values matching a given topic".  Its state is the finite map of the
    registered patterns. *)
Abbreviation Trie := (gmap string N) (only parsing).

Definition NewTrie : Trie := ∅.

(** [Set(pattern, qos)]: [qos] becomes the only value of [pattern]. *)
Definition Trie_Set (pattern : string) (qos : QOS) (t : Trie) : Trie :=
  <[pattern := qos]> t.

(** [Empty(pattern)]: unregisters [pattern]. *)
Definition Trie_Empty (pattern : string) (t : Trie) : Trie :=
  delete pattern t.

(** The registrations whose pattern matches [topic]. *)
Definition matching (topic : string) (t : Trie) : Trie :=
  filter (λ kv, topic_match kv.1 topic = true) t.

(** [Match(topic)]: the QoS values of the matching registrations, without
    duplicates. *)
Definition Trie_Match (topic : string) (t : Trie) : list QOS :=
  remove_dups (map_to_list (matching topic t)).*2.

(** Modelled from the spec: the combined "does-match + max-qos" query. *)
Definition MatchTopicQOS (t : Trie) (topic : string) : bool * N :=
  let ss := Trie_Match topic t in
  (negb (length ss =? 0)%nat, foldr N.max 0 ss).

End mqtt.

(** ** Package common: events *)
Module common.

(** Modelled from the spec: an event "carries: topic (string), delivery
    class/QoS (0 = best-effort, >= 1 = guaranteed), payload, and a completion
    callback".  The callback is an effect on the caller's side: whether
    [e.Done()] was invoked is reported in the result of [Push] below. *)
Record Event := { Ctx : mqtt.MsgContext; Content : string }.

End common.

(** ** Package queue: the delivery queues, reached through an interface *)
Module queue.

(** What a call of [Push] on a queue leaves: the queue, whether the queue
    invoked the completion callback of the event during the call (a queue is
    handed the event with its callback, and may complete an event it has
    taken or discarded), and the error it returns. *)
Record Pushed (Q : Type) := {
  queue_of : Q;
  completed : bool;
  error_of : option error
}.

Arguments queue_of {Q} _.
Arguments completed {Q} _.
Arguments error_of {Q} _.

(** Modelled from the spec: the [queue.Queue] interface, "Push(event) ->
    error", on an explicit queue state.  Both the ephemeral and the
    persistent queue implement it. *)
Class Queue (Q : Type) := Push : common.Event → Q → Pushed Q.

(** A queue that keeps what it is given, in order, never fails and leaves
    the completion of the events to whoever takes them out. *)
Definition memory := list common.Event.

#[global] Instance memory_queue : Queue memory :=
  λ e q, {| queue_of := q ++ [e]; completed := false; error_of := None |}.

(** A queue that completes every event as soon as it has taken it. *)
Record eager := Eager { taken : list common.Event }.

#[global] Instance eager_queue : Queue eager :=
  λ e q, {| queue_of := Eager (taken q ++ [e]); completed := true;
            error_of := None |}.

End queue.

(** ** Package store: the bucket of the persisted session records *)
Module store.

(** Modelled from the spec: the persistence bucket, "SetKV(key, value),
    DelKV(key)", on an explicit bucket state; either call may fail. *)
Class Bucket (V B : Type) := {
  SetKV : string → V → B → B * option error;
  DelKV : string → B → B * option error
}.


(** A bucket that holds the records in a finite map and never fails. *)
#[global] Instance memory_bucket {V} : Bucket V (gmap string V) := {|
  SetKV k v b := (<[k := v]> b, None);
  DelKV k b := (delete k b, None)
|}.

(** A bucket whose storage is broken: nothing is written, every call fails. *)
Record broken := Broken { }.

#[global] Instance broken_bucket {V} : Bucket V broken := {|
  SetKV _ _ b := (b, Some "bucket is closed");
  DelKV _ b := (b, Some "bucket is closed")
|}.

End store.

(** ** Package exchange *)
Module exchange.

(** Modelled from the spec: the topic exchange "binds/unbinds (topic, session)
    pairs", with [Bind] and [Unbind] "assumed idempotent".  One session is
    modelled, so the state of the exchange is the set of the topics bound to
    this session. *)
Abbreviation Exchange := (gset string) (only parsing).

Definition Bind (topic : string) (x : Exchange) : Exchange := {[topic]} ∪ x.

Definition Unbind (topic : string) (x : Exchange) : Exchange := x ∖ {[topic]}.

End exchange.

(** ** Package log: what the session logger records *)
Module log.

Inductive Field :=
| Any (key : string) (value : string)
| AnyEvent (key : string) (e : common.Event)
| Error_ (e : error).

Inductive Entry :=
| Warn (msg : string) (f : Field)
| Error (msg : string) (f : Field).

End log.

(** ** Package session *)

(** Info session information.  A Go map may be [nil]: [None] below. *)
Record Info := {
  ID : string;
  WillMessage : option mqtt.Message;
  Subscriptions : option (gmap string N);
  CleanSession : bool
}.

(** The subscriptions held in an [Info]; ranging over a [nil] map visits
    nothing. *)
Definition held (i : Info) : gmap string N := default ∅ (Subscriptions i).

Definition with_WillMessage (w : option mqtt.Message) (i : Info) : Info :=
  {| ID := ID i; WillMessage := w; Subscriptions := Subscriptions i;
     CleanSession := CleanSession i |}.

Definition with_CleanSession (c : bool) (i : Info) : Info :=
  {| ID := ID i; WillMessage := WillMessage i;
     Subscriptions := Subscriptions i; CleanSession := c |}.

Definition with_Subscriptions (m : option (gmap string N)) (i : Info) : Info :=
  {| ID := ID i; WillMessage := WillMessage i; Subscriptions := m;
     CleanSession := CleanSession i |}.

(** What a call of [Push] does besides changing the session: whether the
    completion callback of the event was invoked during the call, by [Push]
    or by the queue it hands the event to, and the error it returns. *)
Record PushResult := { Done : bool; Err : option error }.

Section Session.

(** The types of the two queues, of the session bucket and of the ack cache. *)
Context {Q0 Q1 B C : Type}.
Context `{!queue.Queue Q0, !queue.Queue Q1, !store.Bucket Info B}.

(** Constants of the package that are declared outside this file: the action
    passed to the authorization callback and the error it is logged with. *)
Variable Subscribe : string.
Variable ErrSessionMessageTopicNotPermitted : error.

(** Go leaves the order in which [range] visits a map unspecified: the
    enumeration it picks is a parameter.  The properties below assume of it
    only that it visits every entry once. *)
Variable range_order : gmap string N → list (string * N).

(** The part of the manager a session reaches: the exchange and the bucket of
    the session records. *)
Record Manager := { exch : gset string; sessionBucket : B }.

(** Session session of a client.  The channel [queue] and the mutex [mut] of
    the Go struct carry no state that the operations below read. *)
Record Session := {
  info : Info;
  manager : Manager;
  qos0 : Q0;
  qos1 : Q1;
  subs : gmap string N;
  cnt : N;
  cache : C;
  log_ : list log.Entry
}.

Definition with_info (i : Info) (s : Session) : Session :=
  {| info := i; manager := manager s; qos0 := qos0 s; qos1 := qos1 s;
     subs := subs s; cnt := cnt s; cache := cache s; log_ := log_ s |}.

Definition with_exch (x : gset string) (s : Session) : Session :=
  {| info := info s;
     manager := {| exch := x; sessionBucket := sessionBucket (manager s) |};
     qos0 := qos0 s; qos1 := qos1 s;
     subs := subs s; cnt := cnt s; cache := cache s; log_ := log_ s |}.

Definition with_sessionBucket (b : B) (s : Session) : Session :=
  {| info := info s;
     manager := {| exch := exch (manager s); sessionBucket := b |};
     qos0 := qos0 s; qos1 := qos1 s;
     subs := subs s; cnt := cnt s; cache := cache s; log_ := log_ s |}.

Definition with_qos0 (q : Q0) (s : Session) : Session :=
  {| info := info s; manager := manager s; qos0 := q; qos1 := qos1 s;
     subs := subs s; cnt := cnt s; cache := cache s; log_ := log_ s |}.

Definition with_qos1 (q : Q1) (s : Session) : Session :=
  {| info := info s; manager := manager s; qos0 := qos0 s; qos1 := q;
     subs := subs s; cnt := cnt s; cache := cache s; log_ := log_ s |}.

Definition with_subs (t : gmap string N) (s : Session) : Session :=
  {| info := info s; manager := manager s; qos0 := qos0 s; qos1 := qos1 s;
     subs := t; cnt := cnt s; cache := cache s; log_ := log_ s |}.

(** [s.log.Warn(...)] and [s.log.Error(...)] append to the log. *)
Definition logged (e : log.Entry) (s : Session) : Session :=
  {| info := info s; manager := manager s; qos0 := qos0 s; qos1 := qos1 s;
     subs := subs s; cnt := cnt s; cache := cache s; log_ := log_ s ++ [e] |}.

(** [persistent]: deletes the record of a clean session, writes the record of
    any other; a failure is logged and nothing is returned. *)
Definition persistent (s : Session) : Session :=
  if CleanSession (info s) then
    let '(b, err) := store.DelKV (ID (info s)) (sessionBucket (manager s)) in
    let s := with_sessionBucket b s in
    match err with
    | Some e => logged (log.Error "failed to delete session" (log.Error_ e)) s
    | None => s
    end
  else
    let '(b, err) :=
      store.SetKV (ID (info s)) (info s) (sessionBucket (manager s)) in
    let s := with_sessionBucket b s in
    match err with
    | Some e => logged (log.Error "failed to persist session" (log.Error_ e)) s
    | None => s
    end.

(** [update] *)
Definition update (si : Info) (s : Session) : Session :=
  let s := with_info (with_WillMessage (WillMessage si) (info s)) s in
  let s := with_info (with_CleanSession (CleanSession si) (info s)) s in
  persistent s.

(** [return s.qos0.Push(e)] and [return s.qos1.Push(e)]: the queue is left
    as its [Push] leaves it, and what the queue did to the event and the
    error it returned are those of the call. *)
Definition push_qos0 (e : common.Event) (s : Session) : Session * PushResult :=
  let r := queue.Push e (qos0 s) in
  (with_qos0 (queue.queue_of r) s,
   {| Done := queue.completed r; Err := queue.error_of r |}).

Definition push_qos1 (e : common.Event) (s : Session) : Session * PushResult :=
  let r := queue.Push e (qos1 s) in
  (with_qos1 (queue.queue_of r) s,
   {| Done := queue.completed r; Err := queue.error_of r |}).

(** The loop of [Push] over the matched QoS values, with what follows it. *)
Fixpoint Push_matched (e : common.Event) (s : Session) (qs : list N)
  : Session * PushResult :=
  match qs with
  | [] => push_qos0 e s
  | q :: qs' => if 0 <? q then push_qos1 e s else Push_matched e s qs'
  end.

(** [Push] pushes source message to session queue *)
Definition Push (e : common.Event) (s : Session) : Session * PushResult :=
  if mqtt.QOS_ (common.Ctx e) =? 0 then push_qos0 e s
  else
    let qs := mqtt.Trie_Match (mqtt.Topic (common.Ctx e)) (subs s) in
    if (length qs =? 0)%nat then
      (logged (log.Warn "a message is ignored since there is no sub matched"
                 (log.AnyEvent "message" e)) s,
       {| Done := true; Err := None |})
    else Push_matched e s qs.

(** The body of the first loop of [subscribe]; the map it assigns to is not
    [nil] there. *)
Definition subscribe_bind (s : Session) (sub : string * N) : Session :=
  let '(topic, qos) := sub in
  let s := with_subs (mqtt.Trie_Set topic qos (subs s)) s in
  let s := with_exch (exchange.Bind topic (exch (manager s))) s in
  with_info (with_Subscriptions
               (Some (<[topic := qos]> (held (info s)))) (info s)) s.

(** The body of the second loop of [subscribe]. *)
Definition subscribe_check (auth : option (string → string → bool))
  (s : Session) (sub : string * N) : Session :=
  let topic := sub.1 in
  match auth with
  | Some f =>
      if negb (f Subscribe topic) then
        let s := logged (log.Warn ErrSessionMessageTopicNotPermitted
                           (log.Any "topic" topic)) s in
        let s := with_subs (mqtt.Trie_Empty topic (subs s)) s in
        let s := with_exch (exchange.Unbind topic (exch (manager s))) s in
        with_info (with_Subscriptions
                     (delete topic <$> Subscriptions (info s)) (info s)) s
      else s
  | None => s
  end.

(** [subscribe].  The first loop assigns to keys the map already has and the
    second deletes only the key it is visiting, so each loop visits the
    entries the map has when the loop starts, once each. *)
Definition subscribe (subs_ : list mqtt.Subscription)
  (auth : option (string → string → bool)) (s : Session) : Session :=
  if (length subs_ =? 0)%nat then s
  else
    let s :=
      match Subscriptions (info s) with
      | None => with_info (with_Subscriptions (Some ∅) (info s)) s
      | Some _ => s
      end in
    let s := foldl subscribe_bind s (range_order (held (info s))) in
    let s := foldl (subscribe_check auth) s (range_order (held (info s))) in
    persistent s.

(** The body of the loop of [unsubscribe]; deleting from a [nil] map does
    nothing. *)
Definition unsubscribe_one (s : Session) (topic : string) : Session :=
  let s := with_subs (mqtt.Trie_Empty topic (subs s)) s in
  let s := with_exch (exchange.Unbind topic (exch (manager s))) s in
  with_info (with_Subscriptions
               (delete topic <$> Subscriptions (info s)) (info s)) s.

(** [unsubscribe] *)
Definition unsubscribe (topics : list string) (s : Session) : Session :=
  if (length topics =? 0)%nat then s
  else persistent (foldl unsubscribe_one s topics).

(** [will] *)
Definition will (s : Session) : option mqtt.Message := WillMessage (info s).

(** [cleanWill] *)
Definition cleanWill (s : Session) : Session :=
  persistent (with_info (with_WillMessage None (info s)) s).

(** [matchQOS] *)
Definition matchQOS (topic : string) (s : Session) : bool * N :=
  mqtt.MatchTopicQOS (subs s) topic.

End Session.

(** Whether the authorization callback lets a topic through; no callback
    means always authorized. *)
Definition permitted (Subscribe : string)
  (auth : option (string → string → bool)) (topic : string) : bool :=
  match auth with
  | Some f => f Subscribe topic
  | None => true
  end.

(** Of the subscriptions [m], those the callback lets through, and the topics
    of those it does not. *)
Definition kept (Subscribe : string) (auth : option (string → string → bool))
  (m : gmap string N) : gmap string N :=
  filter (λ kv, permitted Subscribe auth kv.1 = true) m.

Definition rejected (Subscribe : string)
  (auth : option (string → string → bool)) (m : gmap string N) : gset string :=
  dom (filter (λ kv, permitted Subscribe auth kv.1 = false) m).

(** The topics visited in [l] that the callback does not let through. *)
Definition turned_away (Subscribe : string)
  (auth : option (string → string → bool)) (l : list (string * N))
  (k : string) : Prop :=
  k ∈ l.*1 ∧ permitted Subscribe auth k = false.

#[global] Instance turned_away_dec Subscribe auth l k :
  Decision (turned_away Subscribe auth l k) :=
  decide (k ∈ l.*1 ∧ permitted Subscribe auth k = false).

(** The parts of a session that no subscription operation reads or writes. *)
Definition delivery_state {Q0 Q1 B C}
  (s : Session (Q0 := Q0) (Q1 := Q1) (B := B) (C := C)) : Q0 * Q1 * N * C :=
  (qos0 s, qos1 s, cnt s, cache s).

(** What a failed call of the bucket leaves in the log. *)
Definition failure_logged (msg : string) (err : option error)
  : list log.Entry :=
  match err with
  | Some e => [log.Error msg (log.Error_ e)]
  | None => []
  end.


(** ** Sessions to run the operations on *)

(** A session that holds the subscriptions of [i], registered in its matcher
    and bound in the exchange, with in-memory queues and [b] as the bucket of
    the session records. *)
Definition connected {B} (i : Info) (b : B)
  : Session (Q0 := queue.memory) (Q1 := queue.memory) (B := B) (C := unit) :=
  {| info := i;
     manager := {| exch := dom (held i); sessionBucket := b |};
     qos0 := []; qos1 := [];
     subs := held i;
     cnt := 1; cache := ();
     log_ := [] |}.

(** A session as [newSession] builds it from a persisted [i]: its matcher is
    new and nothing is bound yet. *)
Definition created {B} (i : Info) (b : B)
  : Session (Q0 := queue.memory) (Q1 := queue.memory) (B := B) (C := unit) :=
  {| info := i;
     manager := {| exch := ∅; sessionBucket := b |};
     qos0 := []; qos1 := [];
     subs := mqtt.NewTrie;
     cnt := 1; cache := ();
     log_ := [] |}.

(** The session of client "c" holding the subscriptions [m]. *)
Definition client (m : option (gmap string N)) : Info :=
  {| ID := "c"; WillMessage := None; Subscriptions := m;
     CleanSession := false |}.

Definition event (qos : N) (topic : string) : common.Event :=
  {| common.Ctx := {| mqtt.QOS_ := qos; mqtt.Topic := topic |};
     common.Content := "payload" |}.

(** An authorization callback that rejects the topic "x" and accepts all
    others, whatever the action. *)
Definition reject_x (action topic : string) : bool :=
  negb (String.eqb topic "x").

(** Sessions of client "c" with an in-memory bucket: one that holds no
    subscription, and four that hold the subscriptions written out. *)
Definition session_fresh :=
  connected (client None) (∅ : gmap string Info).

Definition session_xy :=
  connected (client (Some {["x" := 0; "y" := 0]})) (∅ : gmap string Info).

Definition session_overlap :=
  connected (client (Some {["a/#" := 0; "a/b" := 1]})) (∅ : gmap string Info).

Definition session_wildcard :=
  connected (client (Some {["a/#" := 0]})) (∅ : gmap string Info).

Definition session_plain :=
  connected (client (Some {["a/b" := 1; "c" := 0]})) (∅ : gmap string Info).

(** A clean session whose record of an earlier connection is still in the
    bucket. *)
Definition session_clean :=
  connected {| ID := "c"; WillMessage := None; Subscriptions := None;
               CleanSession := true |}
    ({["c" := client None]} : gmap string Info).

(** The same as [session_plain], on a bucket that always fails. *)
Definition session_broken :=
  connected (client (Some {["a/b" := 1; "c" := 0]})) store.Broken.

(** ** newSession *)

(** The fields of the configuration of the manager that [newSession] reads.
    The queue configuration [m.cfg.Persistence.Queue] is copied with its
    [Name] and its [BatchSize] replaced; [R] holds its other fields. *)
Record QueueConfig (R : Type) := {
  Name : string;
  BatchSize : Z;
  Rest : R
}.

Arguments Name {R} _.
Arguments BatchSize {R} _.
Arguments Rest {R} _.

Record Config (R : Type) := {
  MaxInflightQOS0Messages : Z;
  MaxInflightQOS1Messages : Z;
  PersistenceQueue : QueueConfig R
}.

Arguments MaxInflightQOS0Messages {R} _.
Arguments MaxInflightQOS1Messages {R} _.
Arguments PersistenceQueue {R} _.

(** What [newSession] takes from outside this file, as parameters: the
    counter of [mqtt] with its first state and [GetNextID] (the id, and the
    counter after), the cache literal with its offset, the two queue
    constructors, [NewBucket] of the store of the manager, which may fail
    (the encoder it is passed is a new value without state and is left out),
    and the largest capacity with which the run time makes the channel of a
    session. *)
Class Constructors (Q0 Q1 C R QB St : Type) := {
  NewCounter : N;
  GetNextID : N → N * N;
  NewCache : N → C;
  NewTemporary : string → Z → bool → Q0;
  NewBucket : string → St → St * (QB + error);
  NewPersistence : QueueConfig R → QB → Q1;
  MaxChanCapacity : Z
}.

(** What [newSession] returns: a session, or an error after the entries it
    has logged; or it panics. *)
Inductive NewSession (S : Type) :=
| Returned (s : S)
| Failed (entries : list log.Entry) (err : error)
| Panicked.

Arguments Returned {S} s.
Arguments Failed {S} entries err.
Arguments Panicked {S}.

(** [make(chan *eventWrapper, n)] panics for a negative capacity and for one
    beyond what the run time can allocate. *)
Definition make_chan_panics `{!Constructors Q0 Q1 C R QB St} (n : Z) : bool :=
  ((n <? 0) || (MaxChanCapacity <? n))%Z.

Section NewSession.

Context {Q0 Q1 B C R QB St : Type}.
Context `{!store.Bucket Info B, !Constructors Q0 Q1 C R QB St}.

(** [newSession], on the store [st] of the manager.  The fields of the
    session are evaluated in the order of the literal: the counter, the
    ephemeral queue and the matcher come before the channel, whose [make]
    may panic, and the id of the cache after it.  The session under
    construction is dropped when the queue bucket cannot be created. *)
Definition newSession (i : Info) (m : Manager (B := B)) (cfg : Config R)
  (st : St)
  : St * NewSession (Session (Q0 := Q0) (Q1 := Q1) (B := B) (C := C)) :=
  let cnt := NewCounter in
  let q0 := NewTemporary (ID i) (MaxInflightQOS0Messages cfg) true in
  if make_chan_panics (MaxInflightQOS1Messages cfg) then (st, Panicked)
  else
    let '(offset, cnt) := GetNextID cnt in
    let qc := PersistenceQueue cfg in
    let qc := {| Name := ID i; BatchSize := BatchSize qc; Rest := Rest qc |} in
    let qc := {| Name := Name qc; BatchSize := MaxInflightQOS1Messages cfg;
                 Rest := Rest qc |} in
    let '(st, r) := NewBucket (Name qc) st in
    match r with
    | inr err =>
        (st, Failed [log.Error "failed to create queue bucket"
                       (log.Error_ err)] err)
    | inl qbk =>
        let s := {| info := i; manager := m; qos0 := q0;
                    qos1 := NewPersistence qc qbk; subs := mqtt.NewTrie;
                    cnt := cnt; cache := NewCache offset; log_ := [] |} in
        (st, Returned (persistent s))
    end.

End NewSession.

(** Constructors to run [newSession] with: in-memory queues, a counter that
    starts at 1, and a store that keeps the names of its buckets and refuses
    the empty name. *)
#[global] Instance memory_constructors
  : Constructors queue.memory queue.memory N unit unit (gset string) := {|
  NewCounter := 1;
  GetNextID c := (c, c + 1);
  NewCache offset := offset;
  NewTemporary _ _ _ := [];
  NewBucket name st :=
    if String.eqb name EmptyString then (st, inr "bucket name is empty")
    else ({[name]} ∪ st, inl ());
  NewPersistence _ _ := [];
  MaxChanCapacity := 1000000%Z
|}.

Definition config_small : Config unit :=
  {| MaxInflightQOS0Messages := 100; MaxInflightQOS1Messages := 20;
     PersistenceQueue := {| Name := "queue"; BatchSize := 10; Rest := () |} |}.

(** The manager before any session exists, and the session that
    [newSession] returns for client "c" with the persisted subscription
    {"a/b":1}. *)
Definition manager_empty : Manager (B := gmap string Info) :=
  {| exch := ∅; sessionBucket := ∅ |}.

Definition session_new
  : Session (Q0 := queue.memory) (Q1 := queue.memory)
      (B := gmap string Info) (C := N) :=
  {| info := client (Some {["a/b" := 1]});
     manager := {| exch := ∅;
                   sessionBucket := {["c" := client (Some {["a/b" := 1]})]} |};
     qos0 := []; qos1 := [];
     subs := ∅;
     cnt := 2; cache := 1;
     log_ := [] |}.

(** A session whose ephemeral queue completes the events it takes. *)
Definition session_eager
  : Session (Q0 := queue.eager) (Q1 := queue.memory)
      (B := gmap string Info) (C := unit) :=
  {| info := client (Some {["a/#" := 0]});
     manager := {| exch := {["a/#"]}; sessionBucket := ∅ |};
     qos0 := queue.Eager []; qos1 := [];
     subs := {["a/#" := 0]};
     cnt := 1; cache := ();
     log_ := [] |}.

(** An [Info] with an empty id, for which the store refuses the bucket. *)
Definition client_unnamed : Info :=
  {| ID := EmptyString; WillMessage := None; Subscriptions := None;
     CleanSession := false |}.

(** A configuration whose number of messages in flight is negative. *)
Definition config_negative : Config unit :=
  {| MaxInflightQOS0Messages := 100; MaxInflightQOS1Messages := -1;
     PersistenceQueue := {| Name := "queue"; BatchSize := 10; Rest := () |} |}.

(** ** Invariants of a session *)

(** The invariant of the data model: what [Info.Subscriptions] records is
    what the matcher has registered and what the exchange has bound. *)
Definition in_sync {Q0 Q1 B C}
  (s : Session (Q0 := Q0) (Q1 := Q1) (B := B) (C := C)) : Prop :=
  subs s = held (info s) ∧ exch (manager s) = dom (held (info s)).

(** The registrations of a session: the session information, the matcher and
    the bindings of the exchange. *)
Definition registrations {Q0 Q1 B C}
  (s : Session (Q0 := Q0) (Q1 := Q1) (B := B) (C := C))
  : Info * gmap string N * gset string :=
  (info s, subs s, exch (manager s)).

(** On an in-memory bucket: the record kept under the id of the session is
    the session information, and there is none for a clean session. *)
Definition persisted {Q0 Q1 C}
  (s : Session (Q0 := Q0) (Q1 := Q1) (B := gmap string Info) (C := C)) : Prop :=
  sessionBucket (manager s) !! ID (info s) =
    if CleanSession (info s) then None else Some (info s).

(** What [Push] returns when it drops an event. *)
Definition dropped {Q0 Q1 B C} (e : common.Event)
  (s : Session (Q0 := Q0) (Q1 := Q1) (B := B) (C := C))
  : Session (Q0 := Q0) (Q1 := Q1) (B := B) (C := C) * PushResult :=
  (logged (log.Warn "a message is ignored since there is no sub matched"
             (log.AnyEvent "message" e)) s,
   {| Done := true; Err := None |}).

(** * Properties *)

(** ** The matcher *)

(** [Match] returns the QoS values of the registrations that match. *)
Lemma elem_of_Trie_Match (t : gmap string N) (topic : string) (q : N) :
  q ∈ mqtt.Trie_Match topic t ↔
  ∃ p, t !! p = Some q ∧ mqtt.topic_match p topic = true.
Proof.
  unfold mqtt.Trie_Match, mqtt.matching.
  rewrite elem_of_remove_dups, list_elem_of_fmap. split.
  - intros [[p q'] [-> Hin]]. exists p.
    apply elem_of_map_to_list, map_lookup_filter_Some in Hin. exact Hin.
  - intros [p [Hp Hm]]. exists (p, q). split; [reflexivity|].
    apply elem_of_map_to_list, map_lookup_filter_Some. auto.
Qed.

(** [Match] returns nothing exactly when no registration matches. *)
Lemma Trie_Match_nil (t : gmap string N) (topic : string) :
  mqtt.Trie_Match topic t = [] ↔
  ∀ p q, t !! p = Some q → mqtt.topic_match p topic = false.
Proof.
  split.
  - intros Hnil p q Hp. destruct (mqtt.topic_match p topic) eqn:Hm; [|done].
    assert (q ∈ mqtt.Trie_Match topic t) as Hq
      by (apply elem_of_Trie_Match; eauto).
    rewrite Hnil in Hq. by apply not_elem_of_nil in Hq.
  - intros Hno. destruct (mqtt.Trie_Match topic t) as [|q qs] eqn:Hqs; [done|].
    assert (q ∈ mqtt.Trie_Match topic t) as Hq by (rewrite Hqs; left).
    apply elem_of_Trie_Match in Hq as [p [Hp Hm]].
    rewrite (Hno p q Hp) in Hm. discriminate.
Qed.

Section Properties.

Context {Q0 Q1 B C : Type}.
Context `{!queue.Queue Q0, !queue.Queue Q1, !store.Bucket Info B}.
Variable Subscribe : string.
Variable ErrSessionMessageTopicNotPermitted : error.
Variable range_order : gmap string N → list (string * N).

(** Whatever order [range] picks, it visits every entry of the map once. *)
Hypothesis range_order_perm : ∀ m, range_order m ≡ₚ map_to_list m.

Local Abbreviation Session := (Session (Q0 := Q0) (Q1 := Q1) (B := B) (C := C)).
Local Abbreviation subscribe' :=
  (subscribe Subscribe ErrSessionMessageTopicNotPermitted range_order).
Local Abbreviation check_all auth s l :=
  (foldl (subscribe_check Subscribe ErrSessionMessageTopicNotPermitted auth)
     s l).

Implicit Types (s : Session) (e : common.Event) (topic : string).

(** ** Push *)

(** The loop of [Push] stops at the first guaranteed subscription. *)
Lemma Push_matched_guaranteed e s (qs : list N) :
  (∃ q, q ∈ qs ∧ 1 ≤ q) → Push_matched e s qs = push_qos1 e s.
Proof.
  intros [q [Hin Hq]]. induction qs as [|q' qs IH]; simpl.
  - by apply not_elem_of_nil in Hin.
  - destruct (0 <? q') eqn:Hq'; [reflexivity|].
    apply N.ltb_ge in Hq'. apply elem_of_cons in Hin as [->|Hin]; [lia|auto].
Qed.

Lemma Push_matched_best_effort e s (qs : list N) :
  (∀ q, q ∈ qs → q = 0) → Push_matched e s qs = push_qos0 e s.
Proof.
  induction qs as [|q' qs IH]; simpl; intros Hall; [reflexivity|].
  rewrite (Hall q') by left. simpl. apply IH. intros q Hq. apply Hall.
  by right.
Qed.

(** Pushing to one queue leaves the other queue as it is. *)
Lemma push_qos1_qos0 e s : qos0 (push_qos1 e s).1 = qos0 s.
Proof. reflexivity. Qed.

Lemma push_qos0_qos1 e s : qos1 (push_qos0 e s).1 = qos1 s.
Proof. reflexivity. Qed.

(** C4: an event of guaranteed delivery class whose topic matches some
    subscription of the matcher is handed to the persistent queue when one of
    the matching subscriptions has QoS >= 1, and to the ephemeral queue when
    all of them have QoS 0.  The queue it is handed to is afterwards what the
    [Push] of that queue makes of it with this event, and the error of that
    [Push] is the one returned; the other queue stays as it was. *)
Theorem Push_routes_by_matching_qos e s :
  1 ≤ mqtt.QOS_ (common.Ctx e) →
  (∃ p q, subs s !! p = Some q ∧
          mqtt.topic_match p (mqtt.Topic (common.Ctx e)) = true) →
  ((∃ p q, subs s !! p = Some q ∧
           mqtt.topic_match p (mqtt.Topic (common.Ctx e)) = true ∧ 1 ≤ q) →
   qos1 (Push e s).1 = queue.queue_of (queue.Push e (qos1 s)) ∧
   Err (Push e s).2 = queue.error_of (queue.Push e (qos1 s)) ∧
   Done (Push e s).2 = queue.completed (queue.Push e (qos1 s)) ∧
   qos0 (Push e s).1 = qos0 s ∧
   log_ (Push e s).1 = log_ s) ∧
  ((∀ p q, subs s !! p = Some q →
           mqtt.topic_match p (mqtt.Topic (common.Ctx e)) = true → q = 0) →
   qos0 (Push e s).1 = queue.queue_of (queue.Push e (qos0 s)) ∧
   Err (Push e s).2 = queue.error_of (queue.Push e (qos0 s)) ∧
   Done (Push e s).2 = queue.completed (queue.Push e (qos0 s)) ∧
   qos1 (Push e s).1 = qos1 s ∧
   log_ (Push e s).1 = log_ s).
Proof.
  intros Hqos [p0 [q0 [Hp0 Hm0]]].
  assert (Push e s =
          Push_matched e s
            (mqtt.Trie_Match (mqtt.Topic (common.Ctx e)) (subs s))) as HP.
  { unfold Push. destruct (mqtt.QOS_ (common.Ctx e) =? 0) eqn:Hz.
    - apply N.eqb_eq in Hz. lia.
    - destruct (mqtt.Trie_Match _ (subs s)) as [|q qs] eqn:Hqs; [|done].
      rewrite (proj1 (Trie_Match_nil _ _) Hqs p0 q0 Hp0) in Hm0.
      discriminate. }
  split.
  - intros [p [q [Hp [Hm Hq]]]].
    assert (Push e s = push_qos1 e s) as ->.
    { rewrite HP. apply Push_matched_guaranteed. exists q. split; [|done].
      apply elem_of_Trie_Match. eauto. }
    repeat split.
  - intros Hall.
    assert (Push e s = push_qos0 e s) as ->.
    { rewrite HP. apply Push_matched_best_effort. intros q Hq.
      apply elem_of_Trie_Match in Hq as [p [Hp Hm]]. eauto. }
    repeat split.
Qed.

(** C5: an event of guaranteed delivery class whose topic matches no
    subscription of the matcher is completed (its callback is invoked) and
    dropped: a warning is logged, neither queue is touched and no error is
    returned. *)
Theorem Push_unmatched_is_dropped e s :
  1 ≤ mqtt.QOS_ (common.Ctx e) →
  (∀ p q, subs s !! p = Some q →
          mqtt.topic_match p (mqtt.Topic (common.Ctx e)) = false) →
  Push e s =
    (logged (log.Warn "a message is ignored since there is no sub matched"
               (log.AnyEvent "message" e)) s,
     {| Done := true; Err := None |}) ∧
  Done (Push e s).2 = true ∧
  Err (Push e s).2 = None ∧
  qos0 (Push e s).1 = qos0 s ∧
  qos1 (Push e s).1 = qos1 s.
Proof.
  intros Hqos Hno. apply Trie_Match_nil in Hno.
  assert (Push e s =
    (logged (log.Warn "a message is ignored since there is no sub matched"
               (log.AnyEvent "message" e)) s,
     {| Done := true; Err := None |})) as ->.
  { unfold Push. rewrite Hno.
    destruct (mqtt.QOS_ (common.Ctx e) =? 0) eqn:Hz; [|reflexivity].
    apply N.eqb_eq in Hz. lia. }
  repeat split.
Qed.

(** C6: an event of best-effort delivery class is handed to the ephemeral
    queue whatever the matcher holds.  The ephemeral queue is afterwards what
    its [Push] makes of it with this event, and the error of that [Push] is
    the one returned; the persistent queue and the log are not touched (the
    event is not dropped); and with any other matcher in the place of the
    one of the session, the queues and the result are the same. *)
Theorem Push_best_effort_bypasses_matcher e s :
  mqtt.QOS_ (common.Ctx e) = 0 →
  qos0 (Push e s).1 = queue.queue_of (queue.Push e (qos0 s)) ∧
  Err (Push e s).2 = queue.error_of (queue.Push e (qos0 s)) ∧
  Done (Push e s).2 = queue.completed (queue.Push e (qos0 s)) ∧
  qos1 (Push e s).1 = qos1 s ∧
  log_ (Push e s).1 = log_ s ∧
  ∀ t : gmap string N,
    Push e (with_subs t s) = (with_subs t (Push e s).1, (Push e s).2) ∧
    qos0 (Push e (with_subs t s)).1 =
      queue.queue_of (queue.Push e (qos0 s)) ∧
    qos1 (Push e (with_subs t s)).1 = qos1 s.
Proof.
  intros Hz.
  assert (∀ s', Push e s' = push_qos0 e s') as HP.
  { intros s'. unfold Push. by rewrite Hz. }
  rewrite !HP. split_and!; try reflexivity.
  intros t. rewrite HP. repeat split.
Qed.

(** ** persistent and update *)

(** [persistent] touches the bucket and the log only. *)
Lemma persistent_frame s :
  info (persistent s) = info s ∧
  subs (persistent s) = subs s ∧
  exch (manager (persistent s)) = exch (manager s) ∧
  qos0 (persistent s) = qos0 s ∧
  qos1 (persistent s) = qos1 s ∧
  cnt (persistent s) = cnt s ∧
  cache (persistent s) = cache s.
Proof.
  unfold persistent. destruct (CleanSession (info s)).
  - destruct (store.DelKV _ _) as [b [err|]]; repeat split.
  - destruct (store.SetKV _ _ _) as [b [err|]]; repeat split.
Qed.

(** What [persistent] asks of the bucket. *)
Lemma persistent_bucket s :
  sessionBucket (manager (persistent s)) =
    (if CleanSession (info s)
     then store.DelKV (ID (info s)) (sessionBucket (manager s))
     else store.SetKV (ID (info s)) (info s) (sessionBucket (manager s))).1.
Proof.
  unfold persistent. destruct (CleanSession (info s)).
  - by destruct (store.DelKV _ _) as [b [err|]].
  - by destruct (store.SetKV _ _ _) as [b [err|]].
Qed.

(** C9: [persistent] deletes the record kept under the session id when the
    session is clean, and otherwise writes the whole [Info] under that id; a
    failure of the bucket only adds an entry to the log: nothing is returned
    to the caller besides the session, whose [Info] and every other part but
    the bucket and the log are as before. *)
Theorem persistent_deletes_or_upserts s :
  (CleanSession (info s) = true →
   let r := store.DelKV (ID (info s)) (sessionBucket (manager s)) in
   sessionBucket (manager (persistent s)) = r.1 ∧
   log_ (persistent s) =
     log_ s ++ failure_logged "failed to delete session" r.2) ∧
  (CleanSession (info s) = false →
   let r := store.SetKV (ID (info s)) (info s) (sessionBucket (manager s)) in
   sessionBucket (manager (persistent s)) = r.1 ∧
   log_ (persistent s) =
     log_ s ++ failure_logged "failed to persist session" r.2) ∧
  info (persistent s) = info s ∧
  subs (persistent s) = subs s ∧
  exch (manager (persistent s)) = exch (manager s) ∧
  qos0 (persistent s) = qos0 s ∧
  qos1 (persistent s) = qos1 s ∧
  cnt (persistent s) = cnt s ∧
  cache (persistent s) = cache s.
Proof.
  split; [|split; [|apply persistent_frame]].
  - intros Hc. unfold persistent. rewrite Hc.
    destruct (store.DelKV _ _) as [b [err|]]; simpl;
      by rewrite ?app_nil_r.
  - intros Hc. unfold persistent. rewrite Hc.
    destruct (store.SetKV _ _ _) as [b [err|]]; simpl;
      by rewrite ?app_nil_r.
Qed.


(** ** subscribe *)

(** C3: [subscribe] reads of its batch only whether it is empty: from the
    same session and with the same authorization callback, any two non-empty
    batches lead to the same session. *)
Theorem subscribe_ignores_batch (b1 b2 : list mqtt.Subscription)
  (auth : option (string → string → bool)) s :
  b1 ≠ [] → b2 ≠ [] → subscribe' b1 auth s = subscribe' b2 auth s.
Proof.
  intros Hb1 Hb2. unfold subscribe.
  destruct b1 as [|x1 b1]; [done|]. destruct b2 as [|x2 b2]; [done|].
  reflexivity.
Qed.

(** The first loop of [subscribe], run over entries of the held
    subscriptions: it registers and binds them again, and leaves the session
    information as it is. *)
Lemma subscribe_bind_loop (m : gmap string N) (l : list (string * N)) s :
  Subscriptions (info s) = Some m →
  (∀ k v, (k, v) ∈ l → m !! k = Some v) →
  info (foldl subscribe_bind s l) = info s ∧
  (∀ k, subs (foldl subscribe_bind s l) !! k =
        if decide (k ∈ l.*1) then m !! k else subs s !! k) ∧
  (∀ k, k ∈ exch (manager (foldl subscribe_bind s l)) ↔
        k ∈ l.*1 ∨ k ∈ exch (manager s)) ∧
  sessionBucket (manager (foldl subscribe_bind s l)) =
    sessionBucket (manager s) ∧
  delivery_state (foldl subscribe_bind s l) = delivery_state s ∧
  log_ (foldl subscribe_bind s l) = log_ s.
Proof.
  revert s. induction l as [|[k0 v0] l IH]; intros s Hm Hl; cbn [foldl].
  - repeat split; try done.
    + intros Hk. right. done.
    + intros [Hk|Hk]; [by apply not_elem_of_nil in Hk|done].
  - assert (m !! k0 = Some v0) as Hk0 by (apply Hl; left).
    assert (info (subscribe_bind s (k0, v0)) = info s) as Hinfo.
    { simpl. unfold held. rewrite Hm. simpl. rewrite insert_id by done.
      destruct (info s). simpl in *. by subst. }
    assert (subs (subscribe_bind s (k0, v0)) = <[k0 := v0]> (subs s))
      as Hsubs by reflexivity.
    assert (exch (manager (subscribe_bind s (k0, v0))) =
            {[k0]} ∪ exch (manager s)) as Hexch by reflexivity.
    destruct (IH (subscribe_bind s (k0, v0)))
      as (Hi & Hs & Hx & Hb & Hd & Hlog).
    { by rewrite Hinfo. }
    { intros k v Hkv. apply Hl. by right. }
    rewrite Hi, Hb, Hd, Hlog.
    split; [done|]. split; [|split; [|done]].
    + intros k. rewrite Hs, Hsubs. cbn [fmap list_fmap fst].
      destruct (decide (k ∈ l.*1)) as [Hin|Hin].
      * rewrite decide_True by (by right). done.
      * destruct (decide (k = k0)) as [->|Hne].
        -- rewrite decide_True by left. by rewrite lookup_insert_eq.
        -- rewrite decide_False by (rewrite elem_of_cons; tauto).
           by rewrite lookup_insert_ne.
    + intros k. rewrite Hx, Hexch. cbn [fmap list_fmap fst].
      rewrite elem_of_union, elem_of_singleton, elem_of_cons. tauto.
Qed.

(** The second loop of [subscribe] does to a topic that is not let through
    what [unsubscribe] does, after logging a warning, and nothing to the
    others. *)
Lemma subscribe_check_step (auth : option (string → string → bool)) s
  (x : string * N) :
  subscribe_check Subscribe ErrSessionMessageTopicNotPermitted auth s x =
    if permitted Subscribe auth x.1 then s
    else unsubscribe_one
           (logged (log.Warn ErrSessionMessageTopicNotPermitted
                      (log.Any "topic" x.1)) s) x.1.
Proof.
  unfold subscribe_check, permitted. destruct auth as [f|]; [|done].
  by destruct (f Subscribe x.1).
Qed.

(** The second loop of [subscribe], run over the entries [l]: the topics
    turned away are removed from the session information, from the matcher
    and from the exchange, and nothing else of these changes. *)
Lemma subscribe_check_loop (auth : option (string → string → bool))
  (l : list (string * N)) s (m : gmap string N) :
  Subscriptions (info s) = Some m →
  (∃ m', Subscriptions (info (check_all auth s l)) = Some m' ∧
         ∀ k, m' !! k =
              if decide (turned_away Subscribe auth l k) then None
              else m !! k) ∧
  ID (info (check_all auth s l)) = ID (info s) ∧
  WillMessage (info (check_all auth s l)) = WillMessage (info s) ∧
  CleanSession (info (check_all auth s l)) = CleanSession (info s) ∧
  (∀ k, subs (check_all auth s l) !! k =
        if decide (turned_away Subscribe auth l k) then None
        else subs s !! k) ∧
  (∀ k, k ∈ exch (manager (check_all auth s l)) ↔
        k ∈ exch (manager s) ∧ ¬ turned_away Subscribe auth l k) ∧
  sessionBucket (manager (check_all auth s l)) = sessionBucket (manager s) ∧
  delivery_state (check_all auth s l) = delivery_state s.
Proof.
  revert s m. induction l as [|[k0 v0] l IH]; intros s m Hm; cbn [foldl].
  - assert (∀ k, ¬ turned_away Subscribe auth [] k) as Hgone.
    { intros k [Hk _]. by apply not_elem_of_nil in Hk. }
    split_and!; [|done|done|done| | |done|done].
    + exists m. split; [done|]. intros k. by rewrite decide_False.
    + intros k. by rewrite decide_False.
    + intros k. specialize (Hgone k). tauto.
  - rewrite subscribe_check_step. cbn [fst].
    destruct (permitted Subscribe auth k0) eqn:Hp.
    + destruct (IH s m Hm)
        as ([m' [Hm' Hl']] & Hid & Hw & Hc & Hs & Hx & Hb & Hd).
      assert (∀ k, turned_away Subscribe auth ((k0, v0) :: l) k ↔
                   turned_away Subscribe auth l k) as Hgone.
      { intros k. unfold turned_away. cbn [fmap list_fmap fst].
        rewrite elem_of_cons.
        split; [|tauto]. intros [[->|Hk] Hf]; [congruence|tauto]. }
      split_and!; [|done|done|done| | |done|done].
      * exists m'. split; [done|]. intros k. rewrite Hl'.
        apply decide_ext. symmetry. apply Hgone.
      * intros k. rewrite Hs. apply decide_ext. symmetry. apply Hgone.
      * intros k. rewrite Hx, Hgone. tauto.
    + set (s1 := unsubscribe_one
                   (logged (log.Warn ErrSessionMessageTopicNotPermitted
                              (log.Any "topic" k0)) s) k0).
      assert (Subscriptions (info s1) = Some (delete k0 m)) as Hm1.
      { subst s1. simpl. by rewrite Hm. }
      destruct (IH s1 _ Hm1)
        as ([m' [Hm' Hl']] & Hid & Hw & Hc & Hs & Hx & Hb & Hd).
      assert (∀ k, turned_away Subscribe auth ((k0, v0) :: l) k ↔
                   (k = k0 ∨ turned_away Subscribe auth l k)) as Hgone.
      { intros k. unfold turned_away. cbn [fmap list_fmap fst].
        rewrite elem_of_cons.
        split; [tauto|]. intros [->|?]; tauto. }
      split_and!; [|done|done|done| | |done|done].
      * exists m'. split; [done|]. intros k. rewrite Hl'.
        destruct (decide (k = k0)) as [->|Hne].
        -- rewrite lookup_delete_eq.
           rewrite (decide_True (P := turned_away _ _ (_ :: _) _))
             by (apply Hgone; tauto).
           by case_decide.
        -- rewrite lookup_delete_ne by done.
           apply decide_ext. rewrite Hgone. tauto.
      * intros k. rewrite Hs. subst s1. simpl. unfold mqtt.Trie_Empty.
        destruct (decide (k = k0)) as [->|Hne].
        -- rewrite lookup_delete_eq.
           rewrite (decide_True (P := turned_away _ _ (_ :: _) _))
             by (apply Hgone; tauto).
           by case_decide.
        -- rewrite lookup_delete_ne by done.
           apply decide_ext. rewrite Hgone. tauto.
      * intros k. rewrite Hx, Hgone. subst s1. simpl. unfold exchange.Unbind.
        rewrite elem_of_difference, elem_of_singleton. tauto.
Qed.

(** What [range] visits. *)
Lemma range_order_elem (m : gmap string N) (k : string) (v : N) :
  (k, v) ∈ range_order m ↔ m !! k = Some v.
Proof. by rewrite range_order_perm, elem_of_map_to_list. Qed.

Lemma range_order_keys (m : gmap string N) (k : string) :
  k ∈ (range_order m).*1 ↔ is_Some (m !! k).
Proof.
  rewrite list_elem_of_fmap. split.
  - intros [[k' v] [-> Hin]]. apply range_order_elem in Hin. by exists v.
  - intros [v Hv]. exists (k, v). split; [done|]. by apply range_order_elem.
Qed.

Lemma elem_of_rejected (auth : option (string → string → bool))
  (m : gmap string N) (k : string) :
  k ∈ rejected Subscribe auth m ↔
  is_Some (m !! k) ∧ permitted Subscribe auth k = false.
Proof.
  unfold rejected. rewrite elem_of_dom. split.
  - intros [v Hv]. apply map_lookup_filter_Some in Hv as [Hv Hp]. eauto.
  - intros [[v Hv] Hp]. exists v. by apply map_lookup_filter_Some.
Qed.

(** The state [subscribe] leaves, for a batch that is not empty: the held
    subscriptions [m] are registered and bound again, then those the callback
    does not let through are removed everywhere.  The batch does not occur. *)
Lemma subscribe_state (b : list mqtt.Subscription)
  (auth : option (string → string → bool)) s :
  b ≠ [] →
  Subscriptions (info (subscribe' b auth s)) =
    Some (kept Subscribe auth (held (info s))) ∧
  ID (info (subscribe' b auth s)) = ID (info s) ∧
  WillMessage (info (subscribe' b auth s)) = WillMessage (info s) ∧
  CleanSession (info (subscribe' b auth s)) = CleanSession (info s) ∧
  subs (subscribe' b auth s) =
    filter (λ kv, kv.1 ∉ rejected Subscribe auth (held (info s)))
      (held (info s) ∪ subs s) ∧
  exch (manager (subscribe' b auth s)) =
    (dom (held (info s)) ∪ exch (manager s))
      ∖ rejected Subscribe auth (held (info s)) ∧
  delivery_state (subscribe' b auth s) = delivery_state s.
Proof.
  intros Hb. unfold subscribe. destruct b as [|x b]; [done|]. cbn [length Nat.eqb].
  set (m := held (info s)).
  set (s0 := match Subscriptions (info s) with
             | Some _ => s
             | None => with_info (with_Subscriptions (Some ∅) (info s)) s
             end).
  assert (Subscriptions (info s0) = Some m ∧ ID (info s0) = ID (info s) ∧
          WillMessage (info s0) = WillMessage (info s) ∧
          CleanSession (info s0) = CleanSession (info s) ∧
          subs s0 = subs s ∧ exch (manager s0) = exch (manager s) ∧
          delivery_state s0 = delivery_state s)
    as (Hm0 & Hid0 & Hw0 & Hc0 & Hs0 & Hx0 & Hd0).
  { subst s0 m. unfold held. by destruct (Subscriptions (info s)) eqn:E. }
  assert (held (info s0) = m) as Hheld0 by (unfold held; by rewrite Hm0).
  rewrite Hheld0.
  destruct (subscribe_bind_loop m (range_order m) s0 Hm0)
    as (Hi1 & Hs1 & Hx1 & Hb1 & Hd1 & _).
  { intros k v. apply range_order_elem. }
  set (s1 := foldl subscribe_bind s0 (range_order m)) in *.
  assert (held (info s1) = m) as Hheld1 by (by rewrite Hi1).
  rewrite Hheld1.
  assert (Subscriptions (info s1) = Some m) as Hm1 by (by rewrite Hi1).
  destruct (subscribe_check_loop auth (range_order m) s1 m Hm1)
    as ([m' [Hm2 Hl2]] & Hid2 & Hw2 & Hc2 & Hs2 & Hx2 & Hb2 & Hd2).
  set (s2 := check_all auth s1 (range_order m)) in *.
  destruct (persistent_frame s2) as (-> & -> & -> & Hq0 & Hq1 & Hcnt & Hca).
  assert (∀ k, turned_away Subscribe auth (range_order m) k ↔
               k ∈ rejected Subscribe auth m) as Hrej.
  { intros k. unfold turned_away.
    by rewrite elem_of_rejected, range_order_keys. }
  split_and!.
  - rewrite Hm2. f_equal. apply map_eq. intros k. apply option_eq. intros v.
    unfold kept. rewrite Hl2, map_lookup_filter_Some. cbn [fst].
    case_decide as Ht.
    + destruct Ht as [_ Ht]. rewrite Ht. split; [done|]. by intros [_ ?].
    + split; [|tauto]. intros Hv. split; [done|].
      destruct (permitted Subscribe auth k) eqn:Hp; [done|].
      destruct Ht. split; [|done]. apply range_order_keys. eauto.
  - by rewrite Hid2, Hi1.
  - by rewrite Hw2, Hi1.
  - by rewrite Hc2, Hi1.
  - apply map_eq. intros k. apply option_eq. intros v.
    rewrite Hs2, Hs1, Hs0, map_lookup_filter_Some, lookup_union_Some_raw.
    cbn [fst]. rewrite <- Hrej.
    case_decide as Ht.
    + split; [done|]. tauto.
    + case_decide as Hk.
      * apply range_order_keys in Hk as [v' Hv']. rewrite Hv'.
        split; [tauto|]. intros [[?|[? _]] _]; done.
      * assert (m !! k = None) as Hnone.
        { apply eq_None_not_Some. by rewrite <- range_order_keys. }
        rewrite Hnone. split; [tauto|]. intros [[?|[_ ?]] _]; done.
  - apply set_eq. intros k.
    rewrite Hx2, Hx1, Hx0, elem_of_difference, elem_of_union, elem_of_dom.
    rewrite range_order_keys, Hrej. tauto.
  - unfold delivery_state in *. rewrite Hq0, Hq1, Hcnt, Hca.
    by rewrite <- Hd0, <- Hd1, <- Hd2.
Qed.

(** C1, on the code: [subscribe] never registers a topic that the session
    does not hold already.  With no authorization callback and whatever the
    batch, a topic that is neither recorded in [Info.Subscriptions], nor
    registered in the matcher, nor bound in the exchange before the call is
    in none of them after it, also when the batch submits it. *)
Theorem subscribe_registers_no_new_topic (b : list mqtt.Subscription) s
  (topic : string) :
  b ≠ [] →
  held (info s) !! topic = None →
  subs s !! topic = None →
  topic ∉ exch (manager s) →
  held (info (subscribe' b None s)) !! topic = None ∧
  subs (subscribe' b None s) !! topic = None ∧
  matchQOS topic (subscribe' b None s) =
    matchQOS topic (with_subs (held (info s) ∪ subs s) s) ∧
  topic ∉ exch (manager (subscribe' b None s)).
Proof.
  intros Hb Hheld Hsubs Hexch.
  destruct (subscribe_state b None s Hb) as (Hm & _ & _ & _ & Hs & Hx & _).
  assert (rejected Subscribe None (held (info s)) = ∅) as Hrej.
  { apply set_eq. intros k. rewrite elem_of_rejected. simpl.
    split; [by intros [_ ?]|]. intros Hk. by apply not_elem_of_empty in Hk. }
  assert (subs (subscribe' b None s) = held (info s) ∪ subs s) as Hs'.
  { rewrite Hs, Hrej. apply map_filter_id. intros k v _. cbn [fst].
    apply not_elem_of_empty. }
  split_and!.
  - unfold held at 1. rewrite Hm. simpl. unfold kept.
    apply map_lookup_filter_None. by left.
  - rewrite Hs'. by apply lookup_union_None.
  - unfold matchQOS. by rewrite Hs'.
  - rewrite Hx, Hrej, elem_of_difference, elem_of_union, elem_of_dom.
    rewrite Hheld. intros [[[v Hv]|Hin] _]; done.
Qed.

(** ** unsubscribe *)

Lemma filter_delete_not_elem (t : string) (l : list string)
  (m : gmap string N) :
  filter (λ kv, kv.1 ∉ l) (delete t m) = filter (λ kv, kv.1 ∉ t :: l) m.
Proof.
  apply map_eq. intros k. apply option_eq. intros v.
  rewrite !map_lookup_filter_Some, lookup_delete_Some, not_elem_of_cons.
  cbn [fst]. split.
  - intros [[Hne Hv] Hl]. split; [done|]. split; [congruence|done].
  - intros [Hv [Hne Hl]]. split; [|done]. split; [congruence|done].
Qed.

(** The loop of [unsubscribe]: the topics are removed from the session
    information, from the matcher and from the exchange; the rest of the
    session is as before. *)
Lemma unsubscribe_loop (topics : list string) s :
  info (foldl unsubscribe_one s topics) =
    with_Subscriptions
      (filter (λ kv, kv.1 ∉ topics) <$> Subscriptions (info s)) (info s) ∧
  subs (foldl unsubscribe_one s topics) =
    filter (λ kv, kv.1 ∉ topics) (subs s) ∧
  exch (manager (foldl unsubscribe_one s topics)) =
    exch (manager s) ∖ list_to_set topics ∧
  sessionBucket (manager (foldl unsubscribe_one s topics)) =
    sessionBucket (manager s) ∧
  delivery_state (foldl unsubscribe_one s topics) = delivery_state s ∧
  log_ (foldl unsubscribe_one s topics) = log_ s.
Proof.
  revert s. induction topics as [|t l IH]; intros s; cbn [foldl].
  - split_and!; try done.
    + destruct (info s) as [i w [m|] c]; unfold with_Subscriptions; simpl;
        [|done].
      rewrite map_filter_id; [done|]. intros k v _. apply not_elem_of_nil.
    + rewrite map_filter_id; [done|]. intros k v _. apply not_elem_of_nil.
    + apply set_eq. intros k.
      rewrite elem_of_difference, elem_of_list_to_set, elem_of_nil. tauto.
  - destruct (IH (unsubscribe_one s t)) as (-> & -> & -> & -> & -> & ->).
    split_and!; try done.
    + simpl. unfold with_Subscriptions. simpl. f_equal.
      destruct (Subscriptions (info s)) as [m|]; simpl; [|done].
      by rewrite filter_delete_not_elem.
    + simpl. unfold mqtt.Trie_Empty. apply filter_delete_not_elem.
    + simpl. unfold exchange.Unbind. apply set_eq. intros k.
      rewrite !elem_of_difference, elem_of_union, !elem_of_list_to_set,
        elem_of_singleton. tauto.
Qed.

(** The state [unsubscribe] leaves, for a list that is not empty. *)
Lemma unsubscribe_state (topics : list string) s :
  topics ≠ [] →
  info (unsubscribe topics s) =
    with_Subscriptions
      (filter (λ kv, kv.1 ∉ topics) <$> Subscriptions (info s)) (info s) ∧
  subs (unsubscribe topics s) = filter (λ kv, kv.1 ∉ topics) (subs s) ∧
  exch (manager (unsubscribe topics s)) =
    exch (manager s) ∖ list_to_set topics ∧
  sessionBucket (manager (unsubscribe topics s)) =
    (if CleanSession (info s)
     then store.DelKV (ID (info s)) (sessionBucket (manager s))
     else store.SetKV (ID (info s)) (info (unsubscribe topics s))
            (sessionBucket (manager s))).1 ∧
  delivery_state (unsubscribe topics s) = delivery_state s.
Proof.
  intros Hne. unfold unsubscribe. destruct topics as [|t l]; [done|].
  cbn [length Nat.eqb].
  destruct (unsubscribe_loop (t :: l) s) as (Hi & Hs & Hx & Hb & Hd & _).
  destruct (persistent_frame (foldl unsubscribe_one s (t :: l)))
    as (Hpi & -> & -> & Hq0 & Hq1 & Hcnt & Hca).
  rewrite Hpi. split_and!; try done.
  - rewrite persistent_bucket, Hb, Hi. reflexivity.
  - unfold delivery_state in *. by rewrite Hq0, Hq1, Hcnt, Hca.
Qed.

(** C7, as the code has it: after [unsubscribe(topics)] a topic of the list
    is no longer registered in the matcher, recorded in [Info.Subscriptions]
    or bound in the exchange; and [matchQOS] reports "no match" for it
    exactly when none of the patterns that stay registered (those outside the
    list) matches it: a pattern that stays registered and matches the topic,
    such as a wildcard, keeps [matchQOS] reporting a match. *)
Theorem unsubscribe_then_matchQOS (topics : list string) s (t : string) :
  t ∈ topics →
  subs (unsubscribe topics s) !! t = None ∧
  held (info (unsubscribe topics s)) !! t = None ∧
  (t ∉ exch (manager (unsubscribe topics s))) ∧
  ((matchQOS t (unsubscribe topics s)).1 = false ↔
   ∀ p q, subs s !! p = Some q → p ∉ topics →
          mqtt.topic_match p t = false) ∧
  ((matchQOS t (unsubscribe topics s)).1 = true ↔
   ∃ p q, subs s !! p = Some q ∧ (p ∉ topics) ∧
          mqtt.topic_match p t = true).
Proof.
  intros Hin.
  assert (topics ≠ []) as Hne.
  { intros ->. by apply not_elem_of_nil in Hin. }
  destruct (unsubscribe_state topics s Hne) as (Hi & Hs & Hx & _ & _).
  assert (∀ p q, subs (unsubscribe topics s) !! p = Some q ↔
                 subs s !! p = Some q ∧ p ∉ topics) as Hreg.
  { intros p q. by rewrite Hs, map_lookup_filter_Some. }
  split_and!.
  - rewrite Hs. apply map_lookup_filter_None. right.
    intros q _ Hout. by apply Hout.
  - rewrite Hi. unfold held. simpl.
    destruct (Subscriptions (info s)) as [m|]; simpl; [|done].
    apply map_lookup_filter_None. right. intros q _ Hout. by apply Hout.
  - rewrite Hx, elem_of_difference, elem_of_list_to_set. tauto.
  - unfold matchQOS, mqtt.MatchTopicQOS. cbn [fst]. split.
    + intros Hno p q Hp Hout. apply negb_false_iff, Nat.eqb_eq in Hno.
      apply nil_length_inv in Hno.
      apply (proj1 (Trie_Match_nil _ _) Hno p q). by apply Hreg.
    + intros Hrest.
      assert (mqtt.Trie_Match t (subs (unsubscribe topics s)) = []) as ->;
        [|reflexivity].
      apply Trie_Match_nil. intros p q Hp. apply Hreg in Hp as [Hp Hout].
      eauto.
  - unfold matchQOS, mqtt.MatchTopicQOS. cbn [fst]. split.
    + destruct (mqtt.Trie_Match t (subs (unsubscribe topics s)))
        as [|q qs] eqn:Hqs; [discriminate|]. intros _.
      assert (q ∈ mqtt.Trie_Match t (subs (unsubscribe topics s))) as Hq
        by (rewrite Hqs; left).
      apply elem_of_Trie_Match in Hq as [p [Hp Hm]].
      apply Hreg in Hp as [Hp Hout]. eauto.
    + intros [p [q [Hp [Hout Hm]]]].
      assert (q ∈ mqtt.Trie_Match t (subs (unsubscribe topics s))) as Hq.
      { apply elem_of_Trie_Match. exists p. split; [|done]. by apply Hreg. }
      destruct (mqtt.Trie_Match t (subs (unsubscribe topics s))); [|done].
      by apply not_elem_of_nil in Hq.
Qed.




End Properties.

(** * The operations on concrete sessions *)


Example levels_of_topic :
  mqtt.levels "a/b//c" = ["a"; "b"; EmptyString; "c"].
Proof. reflexivity. Qed.

Example match_overlap :
  mqtt.Trie_Match "a/b" (subs session_overlap) = [0; 1] ∧
  mqtt.Trie_Match "a" (subs session_overlap) = [0] ∧
  mqtt.Trie_Match "b" (subs session_overlap) = [].
Proof. vm_compute. auto. Qed.

(** A created session is connected by its first [subscribe], which registers
    and binds the subscriptions of the persisted record. *)
Example created_then_subscribed :
  let s := subscribe "sub" "topic not permitted" map_to_list
             [{| mqtt.SubTopic := "a/b"; mqtt.SubQOS := 1 |}] None
             (created (client (Some {["a/#" := 0]}))
                ({["c" := client (Some {["a/#" := 0]})]} : gmap string Info)) in
  info s = info session_wildcard ∧
  subs s = subs session_wildcard ∧
  exch (manager s) = exch (manager session_wildcard).
Proof. vm_compute. auto. Qed.

(** A failure of the bucket is logged and changes nothing else. *)
Example persistent_on_broken_bucket :
  persistent session_broken =
    logged (log.Error "failed to persist session"
              (log.Error_ "bucket is closed")) session_broken.
Proof. reflexivity. Qed.

(** C2, on the code: from the subscriptions {"x":0,"y":0}, [subscribe] with
    the batch ("z",0) and a callback that rejects "x" removes "x" from the
    session information, the matcher and the exchange, and leaves "y" alone
    in all three: "z" is registered nowhere, so that [Info.Subscriptions] is
    {"y":0} and not {"y":0,"z":0}. *)
Theorem subscribe_recheck_leaves_out_batch (Subscribe Err : string)
  (range_order : gmap string N → list (string * N)) :
  (∀ m, range_order m ≡ₚ map_to_list m) →
  let s' := subscribe Subscribe Err range_order
              [{| mqtt.SubTopic := "z"; mqtt.SubQOS := 0 |}]
              (Some reject_x) session_xy in
  Subscriptions (info s') = Some {["y" := 0]} ∧
  Subscriptions (info s') ≠ Some {["y" := 0; "z" := 0]} ∧
  subs s' = {["y" := 0]} ∧
  exch (manager s') = {["y"]}.
Proof.
  intros Hperm s'.
  destruct (subscribe_state Subscribe Err range_order Hperm
              [{| mqtt.SubTopic := "z"; mqtt.SubQOS := 0 |}]
              (Some reject_x) session_xy)
    as (Hm & _ & _ & _ & Hs & Hx & _); [done|].
  subst s'. rewrite Hm, Hs, Hx. split_and!.
  - vm_compute. reflexivity.
  - vm_compute. discriminate.
  - vm_compute. reflexivity.
  - vm_compute. reflexivity.
Qed.

(** ** The theorems above at concrete sessions *)

Lemma subscribe_registers_no_new_topic_witness :
  let s' := subscribe "sub" "topic not permitted" map_to_list
              [{| mqtt.SubTopic := "a"; mqtt.SubQOS := 1 |}] None
              session_fresh in
  held (info s') !! "a" = None ∧
  subs s' !! "a" = None ∧
  matchQOS "a" s' = (false, 0) ∧
  "a" ∉ exch (manager s').
Proof.
  apply (subscribe_registers_no_new_topic
           "sub" "topic not permitted" map_to_list
           (λ m, reflexivity (map_to_list m))
           [{| mqtt.SubTopic := "a"; mqtt.SubQOS := 1 |}]
           session_fresh "a").
  - discriminate.
  - reflexivity.
  - reflexivity.
  - vm_compute. discriminate.
Defined.

Lemma subscribe_recheck_leaves_out_batch_witness :
  let s' := subscribe "sub" "topic not permitted" map_to_list
              [{| mqtt.SubTopic := "z"; mqtt.SubQOS := 0 |}]
              (Some reject_x) session_xy in
  Subscriptions (info s') = Some {["y" := 0]} ∧
  Subscriptions (info s') ≠ Some {["y" := 0; "z" := 0]} ∧
  subs s' = {["y" := 0]} ∧
  exch (manager s') = {["y"]}.
Proof.
  apply (subscribe_recheck_leaves_out_batch
           "sub" "topic not permitted" map_to_list).
  intros m. reflexivity.
Defined.

Lemma subscribe_ignores_batch_witness :
  subscribe "sub" "topic not permitted" map_to_list
    [{| mqtt.SubTopic := "z"; mqtt.SubQOS := 0 |}] (Some reject_x) session_xy =
  subscribe "sub" "topic not permitted" map_to_list
    [{| mqtt.SubTopic := "a/#"; mqtt.SubQOS := 1 |};
     {| mqtt.SubTopic := "x"; mqtt.SubQOS := 1 |}] (Some reject_x) session_xy.
Proof.
  apply (subscribe_ignores_batch "sub" "topic not permitted" map_to_list).
  - discriminate.
  - discriminate.
Defined.

(** The arbitration of the spec: with {"a/#":0, "a/b":1} an event of class 1
    on "a/b" goes to the persistent queue; with {"a/#":0} alone it goes to
    the ephemeral queue. *)
Lemma Push_routes_by_matching_qos_witness :
  (qos1 (Push (event 1 "a/b") session_overlap).1 = [event 1 "a/b"] ∧
   Err (Push (event 1 "a/b") session_overlap).2 = None ∧
   Done (Push (event 1 "a/b") session_overlap).2 = false ∧
   qos0 (Push (event 1 "a/b") session_overlap).1 = [] ∧
   log_ (Push (event 1 "a/b") session_overlap).1 = []) ∧
  (qos0 (Push (event 1 "a/b") session_wildcard).1 = [event 1 "a/b"] ∧
   Err (Push (event 1 "a/b") session_wildcard).2 = None ∧
   Done (Push (event 1 "a/b") session_wildcard).2 = false ∧
   qos1 (Push (event 1 "a/b") session_wildcard).1 = [] ∧
   log_ (Push (event 1 "a/b") session_wildcard).1 = []).
Proof.
  split.
  - refine (proj1 (Push_routes_by_matching_qos (event 1 "a/b")
                     session_overlap _ _) _).
    + simpl. lia.
    + exists "a/b", 1. split; reflexivity.
    + exists "a/b", 1. split; [reflexivity|]. split; [reflexivity|lia].
  - refine (proj2 (Push_routes_by_matching_qos (event 1 "a/b")
                     session_wildcard _ _) _).
    + simpl. lia.
    + exists "a/#", 0. split; reflexivity.
    + intros p q Hp _.
      change (({["a/#" := 0]} : gmap string N) !! p = Some q) in Hp.
      apply lookup_singleton_Some in Hp as [_ Hq]. done.
Defined.

Lemma Push_unmatched_is_dropped_witness :
  Push (event 1 "d") session_plain =
    (logged (log.Warn "a message is ignored since there is no sub matched"
               (log.AnyEvent "message" (event 1 "d"))) session_plain,
     {| Done := true; Err := None |}) ∧
  Done (Push (event 1 "d") session_plain).2 = true ∧
  Err (Push (event 1 "d") session_plain).2 = None ∧
  qos0 (Push (event 1 "d") session_plain).1 = [] ∧
  qos1 (Push (event 1 "d") session_plain).1 = [].
Proof.
  apply (Push_unmatched_is_dropped (event 1 "d") session_plain).
  - simpl. lia.
  - intros p q Hp.
    change (({["a/b" := 1; "c" := 0]} : gmap string N) !! p = Some q) in Hp.
    apply lookup_insert_Some in Hp as [[<- _]|[_ Hp]].
    + reflexivity.
    + apply lookup_singleton_Some in Hp as [<- _]. reflexivity.
Defined.

(** The bypass of the spec: an event of class 0 on "a/b" reaches the
    ephemeral queue of a session that holds {"a/#":0, "a/b":1}, and of one
    that holds no subscription. *)
Lemma Push_best_effort_bypasses_matcher_witness :
  (qos0 (Push (event 0 "a/b") session_overlap).1 = [event 0 "a/b"] ∧
   qos1 (Push (event 0 "a/b") session_overlap).1 = []) ∧
  (qos0 (Push (event 0 "a/b") session_fresh).1 = [event 0 "a/b"] ∧
   qos1 (Push (event 0 "a/b") session_fresh).1 = []).
Proof.
  split.
  - destruct (Push_best_effort_bypasses_matcher (event 0 "a/b")
                session_overlap eq_refl) as (Hq0 & _ & _ & Hq1 & _).
    split; [exact Hq0|exact Hq1].
  - destruct (Push_best_effort_bypasses_matcher (event 0 "a/b")
                session_fresh eq_refl) as (Hq0 & _ & _ & Hq1 & _).
    split; [exact Hq0|exact Hq1].
Defined.

(** C7 as stated fails: "a/b" unsubscribed, the wildcard subscription "a/#"
    that stays registered still matches it, and [matchQOS] reports a
    match. *)
Lemma unsubscribe_keeps_wildcard_match :
  "a/b" ∈ ["a/b"] ∧
  (matchQOS "a/b" (unsubscribe ["a/b"] session_wildcard)).1 = true.
Proof. split; [left|reflexivity]. Qed.

(** With {"a/#":0} held, "a/b" unsubscribed is registered nowhere and is
    still matched; with {"a/b":1, "c":0} held it is matched no more. *)
Lemma unsubscribe_then_matchQOS_witness :
  (subs (unsubscribe ["a/b"] session_wildcard) !! "a/b" = None ∧
   held (info (unsubscribe ["a/b"] session_wildcard)) !! "a/b" = None ∧
   ("a/b" ∉ exch (manager (unsubscribe ["a/b"] session_wildcard))) ∧
   (matchQOS "a/b" (unsubscribe ["a/b"] session_wildcard)).1 = true) ∧
  (subs (unsubscribe ["a/b"] session_plain) !! "a/b" = None ∧
   held (info (unsubscribe ["a/b"] session_plain)) !! "a/b" = None ∧
   ("a/b" ∉ exch (manager (unsubscribe ["a/b"] session_plain))) ∧
   (matchQOS "a/b" (unsubscribe ["a/b"] session_plain)).1 = false).
Proof.
  split.
  - destruct (unsubscribe_then_matchQOS ["a/b"] session_wildcard "a/b")
      as (Hs & Hi & Hx & _ & Hyes); [left|].
    split_and!; [exact Hs|exact Hi|exact Hx|].
    apply Hyes. exists "a/#", 0. split_and!.
    + reflexivity.
    + intros Hin. apply list_elem_of_singleton in Hin. discriminate.
    + reflexivity.
  - destruct (unsubscribe_then_matchQOS ["a/b"] session_plain "a/b")
      as (Hs & Hi & Hx & Hno & _); [left|].
    split_and!; [exact Hs|exact Hi|exact Hx|].
    apply Hno. intros p q Hp Hout.
    change (({["a/b" := 1; "c" := 0]} : gmap string N) !! p = Some q) in Hp.
    apply lookup_insert_Some in Hp as [[<- _]|[_ Hp]].
    + destruct Hout. left.
    + apply lookup_singleton_Some in Hp as [<- _]. reflexivity.
Defined.


(** A clean session has its record deleted; on the broken bucket the write
    of [session_broken] fails, which is logged and changes nothing else. *)
Lemma persistent_deletes_or_upserts_witness :
  (sessionBucket (manager (persistent session_clean)) = ∅ ∧
   log_ (persistent session_clean) = []) ∧
  (sessionBucket (manager (persistent session_broken)) = store.Broken ∧
   log_ (persistent session_broken) =
     [log.Error "failed to persist session" (log.Error_ "bucket is closed")]) ∧
  info (persistent session_broken) = info session_broken.
Proof.
  split; [|split].
  - exact (proj1 (persistent_deletes_or_upserts session_clean) eq_refl).
  - exact (proj1 (proj2 (persistent_deletes_or_upserts session_broken))
             eq_refl).
  - apply (proj2 (proj2 (persistent_deletes_or_upserts session_broken))).
Defined.

(** * Further properties of the session operations *)

Section Routing.

Context {Q0 Q1 B C : Type}.
Context `{!queue.Queue Q0, !queue.Queue Q1}.

Local Abbreviation Session := (Session (Q0 := Q0) (Q1 := Q1) (B := B) (C := C)).

Implicit Types (s : Session) (e : common.Event).

(** The three ways [Push] ends. *)
Lemma Push_cases e s :
  Push e s = push_qos0 e s ∨ Push e s = push_qos1 e s ∨
  Push e s = dropped e s.
Proof.
  unfold Push. destruct (mqtt.QOS_ (common.Ctx e) =? 0); [by left|].
  destruct (mqtt.Trie_Match _ (subs s)) as [|q qs]; [by right; right|].
  cbn [length Nat.eqb].
  generalize (q :: qs). intros l. induction l as [|q' l IH]; simpl.
  - by left.
  - destruct (0 <? q'); [by right; left|exact IH].
Qed.

Lemma push_qos0_frame e s :
  info (push_qos0 e s).1 = info s ∧ subs (push_qos0 e s).1 = subs s ∧
  manager (push_qos0 e s).1 = manager s ∧ cnt (push_qos0 e s).1 = cnt s ∧
  cache (push_qos0 e s).1 = cache s ∧ log_ (push_qos0 e s).1 = log_ s.
Proof. done. Qed.

Lemma push_qos1_frame e s :
  info (push_qos1 e s).1 = info s ∧ subs (push_qos1 e s).1 = subs s ∧
  manager (push_qos1 e s).1 = manager s ∧ cnt (push_qos1 e s).1 = cnt s ∧
  cache (push_qos1 e s).1 = cache s ∧ log_ (push_qos1 e s).1 = log_ s.
Proof. done. Qed.

(** X1: [Push] changes nothing of a session but one of its queues or its
    log: the session information, the registrations of the matcher, the
    manager with its exchange and bucket, the counter and the ack cache are
    as before, whatever the event and whatever the queues answer. *)
Theorem Push_keeps_session e s :
  info (Push e s).1 = info s ∧
  subs (Push e s).1 = subs s ∧
  manager (Push e s).1 = manager s ∧
  cnt (Push e s).1 = cnt s ∧
  cache (Push e s).1 = cache s.
Proof.
  destruct (Push_cases e s) as [-> | [-> | ->] ].
  - destruct (push_qos0_frame e s) as (? & ? & ? & ? & ? & _). done.
  - destruct (push_qos1_frame e s) as (? & ? & ? & ? & ? & _). done.
  - done.
Qed.

(** X2: [Push] hands an event to one queue, once, or drops it.  Either the
    ephemeral queue is what its [Push] makes of it with this event and the
    persistent queue is untouched, or the other way round, and then the
    error returned and the completion of the event are those of that one
    call of the queue and nothing is logged; or both queues are untouched,
    the event is completed by [Push] itself, no error is returned and the
    warning is logged.  So an error that [Push] returns is the error of one
    of the two queues. *)
Theorem Push_one_queue_or_drop e s :
  ((qos0 (Push e s).1 = queue.queue_of (queue.Push e (qos0 s)) ∧
    qos1 (Push e s).1 = qos1 s ∧
    Done (Push e s).2 = queue.completed (queue.Push e (qos0 s)) ∧
    Err (Push e s).2 = queue.error_of (queue.Push e (qos0 s)) ∧
    log_ (Push e s).1 = log_ s) ∨
   (qos1 (Push e s).1 = queue.queue_of (queue.Push e (qos1 s)) ∧
    qos0 (Push e s).1 = qos0 s ∧
    Done (Push e s).2 = queue.completed (queue.Push e (qos1 s)) ∧
    Err (Push e s).2 = queue.error_of (queue.Push e (qos1 s)) ∧
    log_ (Push e s).1 = log_ s) ∨
   (qos0 (Push e s).1 = qos0 s ∧
    qos1 (Push e s).1 = qos1 s ∧
    Done (Push e s).2 = true ∧
    Err (Push e s).2 = None ∧
    log_ (Push e s).1 =
      log_ s ++ [log.Warn "a message is ignored since there is no sub matched"
                   (log.AnyEvent "message" e)])) ∧
  (∀ err, Err (Push e s).2 = Some err →
          queue.error_of (queue.Push e (qos0 s)) = Some err ∨
          queue.error_of (queue.Push e (qos1 s)) = Some err).
Proof.
  destruct (Push_cases e s) as [-> | [-> | ->] ].
  - split; [by left|]. intros err Herr. by left.
  - split; [by right; left|]. intros err Herr. by right.
  - split; [by right; right|]. intros err Herr. discriminate.
Qed.

End Routing.

Section Registrations.

Context {Q0 Q1 B C : Type}.
Context `{!queue.Queue Q0, !queue.Queue Q1, !store.Bucket Info B}.
Variable Subscribe : string.
Variable ErrSessionMessageTopicNotPermitted : error.
Variable range_order : gmap string N → list (string * N).
Hypothesis range_order_perm : ∀ m, range_order m ≡ₚ map_to_list m.

Local Abbreviation Session := (Session (Q0 := Q0) (Q1 := Q1) (B := B) (C := C)).
Local Abbreviation subscribe' :=
  (subscribe Subscribe ErrSessionMessageTopicNotPermitted range_order).
Local Abbreviation subscribe_state' :=
  (subscribe_state Subscribe ErrSessionMessageTopicNotPermitted range_order
     range_order_perm).

Implicit Types (s : Session) (e : common.Event).
Implicit Types (auth : option (string → string → bool)).
Implicit Types (b : list mqtt.Subscription) (m : gmap string N).

(** ** subscribe *)

Lemma kept_lookup auth m (k : string) (v : N) :
  kept Subscribe auth m !! k = Some v ↔
  m !! k = Some v ∧ permitted Subscribe auth k = true.
Proof. unfold kept. by rewrite map_lookup_filter_Some. Qed.

(** The bucket after [subscribe], for a batch that is not empty. *)
Lemma subscribe_bucket b auth s :
  b ≠ [] →
  sessionBucket (manager (subscribe' b auth s)) =
    (if CleanSession (info s)
     then store.DelKV (ID (info s)) (sessionBucket (manager s))
     else store.SetKV (ID (info s)) (info (subscribe' b auth s))
            (sessionBucket (manager s))).1.
Proof.
  intros Hb. unfold subscribe. destruct b as [|x b]; [done|].
  cbn [length Nat.eqb].
  set (s0 := match Subscriptions (info s) with
             | Some _ => s
             | None => with_info (with_Subscriptions (Some ∅) (info s)) s
             end).
  assert (Subscriptions (info s0) = Some (held (info s)) ∧
          ID (info s0) = ID (info s) ∧
          CleanSession (info s0) = CleanSession (info s) ∧
          sessionBucket (manager s0) = sessionBucket (manager s))
    as (Hm0 & Hid0 & Hc0 & Hb0).
  { subst s0. unfold held. by destruct (Subscriptions (info s)) eqn:E. }
  assert (held (info s0) = held (info s)) as -> by (unfold held; by rewrite Hm0).
  destruct (subscribe_bind_loop (held (info s))
              (range_order (held (info s))) s0 Hm0)
    as (Hi1 & _ & _ & Hb1 & _ & _).
  { intros k v. by apply (range_order_elem range_order range_order_perm). }
  set (s1 := foldl subscribe_bind s0 (range_order (held (info s)))) in *.
  assert (held (info s1) = held (info s)) as ->
    by (unfold held; by rewrite Hi1, Hm0).
  assert (Subscriptions (info s1) = Some (held (info s))) as Hm1
    by (by rewrite Hi1).
  destruct (subscribe_check_loop Subscribe ErrSessionMessageTopicNotPermitted
              auth (range_order (held (info s))) s1 _ Hm1)
    as (_ & Hid2 & _ & Hc2 & _ & _ & Hb2 & _).
  destruct (persistent_frame
              (foldl (subscribe_check Subscribe
                        ErrSessionMessageTopicNotPermitted auth) s1
                 (range_order (held (info s))))) as (-> & _).
  rewrite persistent_bucket, Hb2, Hb1, Hb0, Hid2, Hc2, Hi1, Hid0, Hc0.
  reflexivity.
Qed.

(** X4: after [subscribe] with a batch that is not empty, every subscription
    recorded in [Info.Subscriptions] is registered in the matcher with the
    same QoS and bound in the exchange, whatever the matcher and the exchange
    held before the call. *)
Theorem subscribe_registers_what_is_held b auth s (k : string) (v : N) :
  b ≠ [] →
  held (info (subscribe' b auth s)) !! k = Some v →
  subs (subscribe' b auth s) !! k = Some v ∧
  k ∈ exch (manager (subscribe' b auth s)).
Proof.
  intros Hb Hk.
  destruct (subscribe_state' b auth s Hb) as (Hm & _ & _ & _ & Hs & Hx & _).
  unfold held in Hk at 1. rewrite Hm in Hk. simpl in Hk.
  apply kept_lookup in Hk as [Hk Hp].
  assert (k ∉ rejected Subscribe auth (held (info s))) as Hrej.
  { rewrite elem_of_rejected. intros [_ Hf]. congruence. }
  split.
  - rewrite Hs. apply map_lookup_filter_Some. split; [|done].
    apply lookup_union_Some_raw. by left.
  - rewrite Hx, elem_of_difference, elem_of_union, elem_of_dom. eauto.
Qed.

(** X5: the re-check of [subscribe] fails closed.  After a call with a batch
    that is not empty, [Info.Subscriptions] holds exactly the subscriptions it
    held before that the callback lets through, with their QoS, and a held
    topic that the callback rejects is registered in the matcher and bound in
    the exchange no more. *)
Theorem subscribe_fails_closed b auth s (k : string) :
  b ≠ [] →
  (∀ v, held (info (subscribe' b auth s)) !! k = Some v ↔
        held (info s) !! k = Some v ∧ permitted Subscribe auth k = true) ∧
  (is_Some (held (info s) !! k) → permitted Subscribe auth k = false →
   subs (subscribe' b auth s) !! k = None ∧
   k ∉ exch (manager (subscribe' b auth s))).
Proof.
  intros Hb.
  destruct (subscribe_state' b auth s Hb) as (Hm & _ & _ & _ & Hs & Hx & _).
  split.
  - intros v. unfold held at 1. rewrite Hm. simpl. apply kept_lookup.
  - intros Hk Hp.
    assert (k ∈ rejected Subscribe auth (held (info s))) as Hrej
      by (by apply elem_of_rejected).
    split.
    + rewrite Hs. apply map_lookup_filter_None. right. intros v _ Hout.
      by apply Hout.
    + rewrite Hx, elem_of_difference. tauto.
Qed.



Lemma filter_not_rejected_kept auth m :
  filter (λ kv, kv.1 ∉ rejected Subscribe auth m) m = kept Subscribe auth m.
Proof.
  apply map_eq. intros k. apply option_eq. intros v.
  rewrite map_lookup_filter_Some, kept_lookup, elem_of_rejected. cbn [fst].
  split.
  - intros [Hv Hout]. split; [done|].
    destruct (permitted Subscribe auth k); [done|]. destruct Hout. eauto.
  - intros [Hv Hp]. split; [done|]. intros [_ Hf]. congruence.
Qed.

Lemma dom_kept auth m :
  dom m ∖ rejected Subscribe auth m = dom (kept Subscribe auth m).
Proof.
  apply set_eq. intros k.
  rewrite elem_of_difference, elem_of_rejected, !elem_of_dom. split.
  - intros [[v Hv] Hout]. exists v. apply kept_lookup. split; [done|].
    destruct (permitted Subscribe auth k); [done|]. destruct Hout. eauto.
  - intros [v Hv]. apply kept_lookup in Hv as [Hv Hp]. split; [eauto|].
    intros [_ Hf]. congruence.
Qed.



(** ** unsubscribe *)

Lemma held_filtered (P : string * N → Prop) `{!∀ kv, Decision (P kv)}
  (i : Info) :
  held (with_Subscriptions (filter P <$> Subscriptions i) i) =
  filter P (held i).
Proof.
  unfold held. simpl. destruct (Subscriptions i); simpl; [done|].
  by rewrite map_filter_empty.
Qed.

(** What [unsubscribe] leaves registered, for any list of topics. *)
Lemma unsubscribe_registrations (topics : list string) s :
  info (unsubscribe topics s) =
    with_Subscriptions
      (filter (λ kv, kv.1 ∉ topics) <$> Subscriptions (info s)) (info s) ∧
  subs (unsubscribe topics s) = filter (λ kv, kv.1 ∉ topics) (subs s) ∧
  exch (manager (unsubscribe topics s)) =
    exch (manager s) ∖ list_to_set topics.
Proof.
  destruct (decide (topics = [])) as [->|Hne].
  - destruct (unsubscribe_loop [] s) as (Hi & Hs & Hx & _). done.
  - destruct (unsubscribe_state topics s Hne) as (Hi & Hs & Hx & _). done.
Qed.

(** X7: [unsubscribe] touches the listed topics only.  For a topic outside
    the list, what [Info.Subscriptions] records, what the matcher has
    registered and whether the exchange has it bound are as before; and no
    topic gains a match: a QoS that the matcher returns for a topic after the
    call, it returned for it before. *)
Theorem unsubscribe_touches_listed_only (topics : list string) s :
  (∀ k, k ∉ topics →
     held (info (unsubscribe topics s)) !! k = held (info s) !! k ∧
     subs (unsubscribe topics s) !! k = subs s !! k ∧
     (k ∈ exch (manager (unsubscribe topics s)) ↔ k ∈ exch (manager s))) ∧
  (∀ t q, q ∈ mqtt.Trie_Match t (subs (unsubscribe topics s)) →
          q ∈ mqtt.Trie_Match t (subs s)).
Proof.
  destruct (unsubscribe_registrations topics s) as (Hi & Hs & Hx).
  assert (∀ (m : gmap string N) k, k ∉ topics →
            filter (λ kv, kv.1 ∉ topics) m !! k = m !! k) as Hout.
  { intros m k Hk. apply option_eq. intros v.
    rewrite map_lookup_filter_Some. cbn [fst]. tauto. }
  split.
  - intros k Hk. split_and!.
    + rewrite Hi, held_filtered. by apply Hout.
    + rewrite Hs. by apply Hout.
    + rewrite Hx, elem_of_difference, elem_of_list_to_set. tauto.
  - intros t q Hq. apply elem_of_Trie_Match in Hq as [p [Hp Hm]].
    apply elem_of_Trie_Match. exists p. split; [|done].
    rewrite Hs in Hp. by apply map_lookup_filter_Some in Hp as [Hp _].
Qed.

(** X8: calls of [unsubscribe] compose.  Unsubscribing a list and then
    another leaves the session information, the matcher and the exchange as
    unsubscribing the two lists at once, and as unsubscribing them in the
    other order. *)
Theorem unsubscribe_composes (l1 l2 : list string) s :
  registrations (unsubscribe l2 (unsubscribe l1 s)) =
    registrations (unsubscribe (l1 ++ l2) s) ∧
  registrations (unsubscribe l2 (unsubscribe l1 s)) =
    registrations (unsubscribe l1 (unsubscribe l2 s)).
Proof.
  assert (∀ l l' (m : gmap string N),
            filter (λ kv, kv.1 ∉ l') (filter (λ kv, kv.1 ∉ l) m) =
            filter (λ kv, kv.1 ∉ l ++ l') m) as Hff.
  { intros l l' m. apply map_eq. intros k. apply option_eq. intros v.
    rewrite !map_lookup_filter_Some, elem_of_app. cbn [fst]. tauto. }
  assert (∀ l l', registrations (unsubscribe l' (unsubscribe l s)) =
                  registrations (unsubscribe (l ++ l') s)) as Hcat.
  { intros l l'.
    destruct (unsubscribe_registrations l s) as (Hi1 & Hs1 & Hx1).
    destruct (unsubscribe_registrations l' (unsubscribe l s))
      as (Hi2 & Hs2 & Hx2).
    destruct (unsubscribe_registrations (l ++ l') s) as (Hi & Hs & Hx).
    unfold registrations. rewrite Hi2, Hs2, Hx2, Hi1, Hs1, Hx1, Hi, Hs, Hx.
    f_equal; [f_equal|].
    - unfold with_Subscriptions. simpl. f_equal.
      destruct (Subscriptions (info s)) as [m|]; simpl; [|done].
      by rewrite Hff.
    - apply Hff.
    - apply set_eq. intros k.
      rewrite !elem_of_difference, !elem_of_list_to_set, elem_of_app. tauto. }
  split; [apply Hcat|]. rewrite !Hcat.
  destruct (unsubscribe_registrations (l1 ++ l2) s) as (Hi & Hs & Hx).
  destruct (unsubscribe_registrations (l2 ++ l1) s) as (Hi' & Hs' & Hx').
  assert (∀ m : gmap string N,
            filter (λ kv, kv.1 ∉ l1 ++ l2) m =
            filter (λ kv, kv.1 ∉ l2 ++ l1) m) as Hswap.
  { intros m. apply map_eq. intros k. apply option_eq. intros v.
    rewrite !map_lookup_filter_Some, !elem_of_app. cbn [fst]. tauto. }
  unfold registrations. rewrite Hi, Hs, Hx, Hi', Hs', Hx'.
  f_equal; [f_equal|].
  - unfold with_Subscriptions. simpl. f_equal.
    destruct (Subscriptions (info s)) as [m|]; simpl; [|done].
    by rewrite Hswap.
  - apply Hswap.
  - apply set_eq. intros k.
    rewrite !elem_of_difference, !elem_of_list_to_set, !elem_of_app. tauto.
Qed.

End Registrations.

Section Invariants.

Context {Q0 Q1 B C : Type}.
Context `{!queue.Queue Q0, !queue.Queue Q1, !store.Bucket Info B}.
Variable Subscribe : string.
Variable ErrSessionMessageTopicNotPermitted : error.
Variable range_order : gmap string N → list (string * N).
Hypothesis range_order_perm : ∀ m, range_order m ≡ₚ map_to_list m.

Local Abbreviation Session := (Session (Q0 := Q0) (Q1 := Q1) (B := B) (C := C)).
Local Abbreviation subscribe' :=
  (subscribe Subscribe ErrSessionMessageTopicNotPermitted range_order).
Local Abbreviation subscribe_state' :=
  (subscribe_state Subscribe ErrSessionMessageTopicNotPermitted range_order
     range_order_perm).

Implicit Types (s : Session) (e : common.Event) (si : Info).
Implicit Types (auth : option (string → string → bool)).
Implicit Types (b : list mqtt.Subscription) (topics : list string).

(** [update] and [cleanWill] write the will and the flag and nothing else
    of the session but the bucket and the log. *)
Lemma update_frame si s :
  info (update si s) =
    with_CleanSession (CleanSession si)
      (with_WillMessage (WillMessage si) (info s)) ∧
  subs (update si s) = subs s ∧
  exch (manager (update si s)) = exch (manager s) ∧
  delivery_state (update si s) = delivery_state s.
Proof.
  unfold update, delivery_state.
  match goal with |- context [persistent ?x] =>
    destruct (persistent_frame x) as (-> & -> & -> & -> & -> & -> & ->)
  end.
  done.
Qed.

Lemma cleanWill_frame s :
  info (cleanWill s) = with_WillMessage None (info s) ∧
  subs (cleanWill s) = subs s ∧
  exch (manager (cleanWill s)) = exch (manager s) ∧
  delivery_state (cleanWill s) = delivery_state s.
Proof.
  unfold cleanWill, delivery_state.
  match goal with |- context [persistent ?x] =>
    destruct (persistent_frame x) as (-> & -> & -> & -> & -> & -> & ->)
  end.
  done.
Qed.

Lemma Push_frame e s :
  info (Push e s).1 = info s ∧ subs (Push e s).1 = subs s ∧
  manager (Push e s).1 = manager s.
Proof.
  destruct (Push_cases e s) as [-> | [-> | ->] ].
  - destruct (push_qos0_frame e s) as (? & ? & ? & _). done.
  - destruct (push_qos1_frame e s) as (? & ? & ? & _). done.
  - done.
Qed.

(** X9: the operations keep the invariant of the data model.  When what
    [Info.Subscriptions] records is what the matcher has registered and what
    the exchange has bound, it is so again after [subscribe], [unsubscribe],
    [update], [cleanWill] and [Push], whatever their arguments. *)
Theorem in_sync_preserved s :
  in_sync s →
  (∀ b auth, in_sync (subscribe' b auth s)) ∧
  (∀ topics, in_sync (unsubscribe topics s)) ∧
  (∀ si, in_sync (update si s)) ∧
  in_sync (cleanWill s) ∧
  (∀ e, in_sync (Push e s).1).
Proof.
  intros [Hsubs Hexch]. split_and!.
  - intros b auth. destruct (decide (b = [])) as [->|Hb]; [done|].
    destruct (subscribe_state' b auth s Hb)
      as (Hm & _ & _ & _ & Hs & Hx & _).
    assert (held (info (subscribe' b auth s)) =
            kept Subscribe auth (held (info s))) as Hheld
      by (unfold held at 1; by rewrite Hm).
    split; rewrite Hheld.
    + rewrite Hs, Hsubs, (map_subseteq_union (held (info s))) by done.
      apply filter_not_rejected_kept.
    + rewrite Hx, Hexch, (union_idemp_L (dom (held (info s)))).
      apply dom_kept.
  - intros topics.
    destruct (unsubscribe_registrations topics s) as (Hi & Hs & Hx).
    split; rewrite Hi, held_filtered.
    + by rewrite Hs, Hsubs.
    + rewrite Hx, Hexch. apply set_eq. intros k.
      rewrite elem_of_difference, elem_of_list_to_set, !elem_of_dom. split.
      * intros [[v Hv] Hout]. exists v. by apply map_lookup_filter_Some.
      * intros [v Hv]. apply map_lookup_filter_Some in Hv as [Hv Hout].
        split; [eauto|done].
  - intros si. destruct (update_frame si s) as (Hi & Hs & Hx & _).
    split; rewrite Hi; [by rewrite Hs|by rewrite Hx].
  - destruct (cleanWill_frame s) as (Hi & Hs & Hx & _).
    split; rewrite Hi; [by rewrite Hs|by rewrite Hx].
  - intros e. destruct (Push_frame e s) as (Hi & Hs & Hm).
    split; rewrite Hi; [by rewrite Hs|by rewrite Hm].
Qed.

(** X10: [cleanWill] clears the will and nothing else.  After it [will]
    returns nothing; the id, the subscriptions and the clean-session flag,
    the matcher, the exchange, the queues, the counter and the ack cache are
    as before; and the record written to the bucket for a session that is
    not clean is the session information without the will. *)
Theorem cleanWill_clears_will_only s :
  will (cleanWill s) = None ∧
  info (cleanWill s) = with_WillMessage None (info s) ∧
  subs (cleanWill s) = subs s ∧
  exch (manager (cleanWill s)) = exch (manager s) ∧
  delivery_state (cleanWill s) = delivery_state s ∧
  sessionBucket (manager (cleanWill s)) =
    (if CleanSession (info s)
     then store.DelKV (ID (info s)) (sessionBucket (manager s))
     else store.SetKV (ID (info s)) (with_WillMessage None (info s))
            (sessionBucket (manager s))).1.
Proof.
  destruct (cleanWill_frame s) as (Hi & Hs & Hx & Hd).
  split_and!; try done.
  - unfold will. by rewrite Hi.
  - unfold cleanWill. by rewrite persistent_bucket.
Qed.

(** X11: the will message is written by [update] and [cleanWill] only:
    [will] returns after [subscribe], [unsubscribe] and [Push] what it
    returned before, and after [update] the will of the new [Info], also when
    that is none. *)
Theorem will_changes_with_update_only s :
  (∀ b auth, will (subscribe' b auth s) = will s) ∧
  (∀ topics, will (unsubscribe topics s) = will s) ∧
  (∀ e, will (Push e s).1 = will s) ∧
  (∀ si, will (update si s) = WillMessage si).
Proof.
  unfold will. split_and!.
  - intros b auth. destruct (decide (b = [])) as [->|Hb]; [done|].
    by destruct (subscribe_state' b auth s Hb) as (_ & _ & -> & _).
  - intros topics.
    by destruct (unsubscribe_registrations topics s) as (-> & _).
  - intros e. by destruct (Push_frame e s) as (-> & _).
  - intros si. by destruct (update_frame si s) as (-> & _).
Qed.

(** X12: the operations on subscriptions and on the will never touch what
    is pending for delivery: the two queues, the counter and the ack cache
    are after [subscribe], [unsubscribe], [update] and [cleanWill] as they
    were before, also for a topic that is unsubscribed or rejected. *)
Theorem delivery_state_kept s :
  (∀ b auth, delivery_state (subscribe' b auth s) = delivery_state s) ∧
  (∀ topics, delivery_state (unsubscribe topics s) = delivery_state s) ∧
  (∀ si, delivery_state (update si s) = delivery_state s) ∧
  delivery_state (cleanWill s) = delivery_state s.
Proof.
  split_and!.
  - intros b auth. destruct (decide (b = [])) as [->|Hb]; [done|].
    by destruct (subscribe_state' b auth s Hb) as (_ & _ & _ & _ & _ & _ & ->).
  - intros topics. destruct (decide (topics = [])) as [->|Hne]; [done|].
    by destruct (unsubscribe_state topics s Hne) as (_ & _ & _ & _ & ->).
  - intros si. by destruct (update_frame si s) as (_ & _ & _ & ->).
  - by destruct (cleanWill_frame s) as (_ & _ & _ & ->).
Qed.

End Invariants.

Section Persisted.

Context {Q0 Q1 C : Type}.
Variable Subscribe : string.
Variable ErrSessionMessageTopicNotPermitted : error.
Variable range_order : gmap string N → list (string * N).
Hypothesis range_order_perm : ∀ m, range_order m ≡ₚ map_to_list m.

Local Abbreviation Session :=
  (Session (Q0 := Q0) (Q1 := Q1) (B := gmap string Info) (C := C)).
Local Abbreviation subscribe' :=
  (subscribe Subscribe ErrSessionMessageTopicNotPermitted range_order).

(** [s'] is persisted, and the records of the other sessions are those of
    [s]. *)
Local Abbreviation recorded s s' :=
  (persisted s' ∧
   ∀ k, k ≠ ID (info s) →
        sessionBucket (manager s') !! k = sessionBucket (manager s) !! k).

Implicit Types (s : Session) (si : Info).

Lemma recorded_after s s' :
  ID (info s') = ID (info s) →
  sessionBucket (manager s') =
    (if CleanSession (info s')
     then store.DelKV (ID (info s')) (sessionBucket (manager s))
     else store.SetKV (ID (info s')) (info s')
            (sessionBucket (manager s))).1 →
  recorded s s'.
Proof.
  intros Hid Hb. unfold persisted. rewrite Hb, Hid.
  destruct (CleanSession (info s')); simpl; split.
  - apply lookup_delete_eq.
  - intros k Hk. by apply lookup_delete_ne.
  - apply lookup_insert_eq.
  - intros k Hk. by apply lookup_insert_ne.
Qed.

(** X13: on a bucket that does not fail, the record of a session follows
    the session.  After [update], [cleanWill], and [subscribe] and
    [unsubscribe] with an argument that is not empty, the bucket holds under
    the id of the session exactly the session information of the result, or
    no record when the session is clean; the records under other ids are not
    touched. *)
Theorem mutations_are_persisted s :
  (∀ si, recorded s (update si s)) ∧
  recorded s (cleanWill s) ∧
  (∀ b auth, b ≠ [] → recorded s (subscribe' b auth s)) ∧
  (∀ topics, topics ≠ [] → recorded s (unsubscribe topics s)).
Proof.
  split; [|split; [|split] ].
  - intros si. apply recorded_after.
    + by destruct (update_frame si s) as (-> & _).
    + unfold update. rewrite persistent_bucket.
      match goal with |- context [info (persistent ?x)] =>
        destruct (persistent_frame x) as (-> & _)
      end.
      reflexivity.
  - apply recorded_after.
    + by destruct (cleanWill_frame s) as (-> & _).
    + unfold cleanWill. rewrite persistent_bucket.
      match goal with |- context [info (persistent ?x)] =>
        destruct (persistent_frame x) as (-> & _)
      end.
      reflexivity.
  - intros b auth Hb.
    destruct (subscribe_state Subscribe ErrSessionMessageTopicNotPermitted
                range_order range_order_perm b auth s Hb)
      as (_ & Hid & _ & Hc & _).
    apply recorded_after; [done|].
    rewrite (subscribe_bucket Subscribe ErrSessionMessageTopicNotPermitted
               range_order range_order_perm b auth s Hb).
    by rewrite Hid, Hc.
  - intros topics Hne.
    destruct (unsubscribe_state topics s Hne) as (Hi & _ & _ & Hb & _).
    apply recorded_after; [by rewrite Hi|].
    rewrite Hb. by rewrite Hi.
Qed.

End Persisted.

Section Creation.

Context {Q0 Q1 B C R QB St : Type}.
Context `{!queue.Queue Q0, !queue.Queue Q1, !store.Bucket Info B}.
Context `{!Constructors Q0 Q1 C R QB St}.
Variable Subscribe : string.
Variable ErrSessionMessageTopicNotPermitted : error.
Variable range_order : gmap string N → list (string * N).
Hypothesis range_order_perm : ∀ m, range_order m ≡ₚ map_to_list m.

Local Abbreviation Session := (Session (Q0 := Q0) (Q1 := Q1) (B := B) (C := C)).
Local Abbreviation subscribe' :=
  (subscribe Subscribe ErrSessionMessageTopicNotPermitted range_order).

Implicit Types (s : Session) (i : Info) (m : Manager (B := B)).
Implicit Types (cfg : Config R) (st : St).

(** A session that [newSession] returns holds the given [Info], a matcher
    with no registration and the exchange of the manager. *)
Lemma newSession_returned i m cfg st st' s :
  newSession i m cfg st = (st', Returned s) →
  info s = i ∧ subs s = ∅ ∧ exch (manager s) = exch m ∧ log_ s =
    failure_logged
      (if CleanSession i then "failed to delete session"
       else "failed to persist session")
      (if CleanSession i then store.DelKV (ID i) (sessionBucket m)
       else store.SetKV (ID i) i (sessionBucket m)).2.
Proof.
  unfold newSession.
  destruct (make_chan_panics (MaxInflightQOS1Messages cfg)); [done|].
  destruct (GetNextID NewCounter) as [offset cnt'].
  cbn [Name]. destruct (NewBucket (ID i) st) as [st1 [qbk|err]]; [|done].
  intros [= <- <-].
  match goal with |- context [persistent ?x] =>
    destruct (persistent_frame x) as (-> & -> & -> & _); set (raw := x)
  end.
  split_and!; try done.
  unfold persistent. subst raw. cbn [info manager sessionBucket].
  destruct (CleanSession i).
  - by destruct (store.DelKV _ _) as [b' [e'|] ].
  - by destruct (store.SetKV _ _ _) as [b' [e'|] ].
Qed.

(** X14: the three ways [newSession] ends.  It panics, before the store is
    asked for anything and before any record is written, when the capacity
    [MaxInflightQOS1Messages] of the channel is negative or beyond what the
    run time allocates.  Otherwise it fails exactly when the bucket of the
    persistent queue cannot be created, under the name of the session id: it
    then returns the error of the store after logging it, and no session.
    Otherwise it returns a session, and the record of the session is written
    as [persistent] writes it: deleted for a clean session, set to the given
    [Info] for another. *)
Theorem newSession_outcome i m cfg st :
  if ((MaxInflightQOS1Messages cfg <? 0) ||
      (MaxChanCapacity <? MaxInflightQOS1Messages cfg))%Z
  then newSession i m cfg st = (st, Panicked)
  else
    match NewBucket (ID i) st with
    | (st', inr err) =>
        newSession i m cfg st =
          (st', Failed [log.Error "failed to create queue bucket"
                          (log.Error_ err)] err)
    | (st', inl qbk) =>
        ∃ s, newSession i m cfg st = (st', Returned s) ∧
             info s = i ∧
             sessionBucket (manager s) =
               (if CleanSession i
                then store.DelKV (ID i) (sessionBucket m)
                else store.SetKV (ID i) i (sessionBucket m)).1 ∧
             qos0 s = NewTemporary (ID i) (MaxInflightQOS0Messages cfg) true ∧
             qos1 s =
               NewPersistence
                 {| Name := ID i; BatchSize := MaxInflightQOS1Messages cfg;
                    Rest := Rest (PersistenceQueue cfg) |} qbk ∧
             cache s = NewCache (GetNextID NewCounter).1 ∧
             cnt s = (GetNextID NewCounter).2
    end.
Proof.
  unfold newSession, make_chan_panics.
  destruct ((MaxInflightQOS1Messages cfg <? 0) ||
            (MaxChanCapacity <? MaxInflightQOS1Messages cfg))%Z; [done|].
  destruct (GetNextID NewCounter) as [offset cnt'].
  cbn [Name Rest]. destruct (NewBucket (ID i) st) as [st1 [qbk|err]]; [|done].
  eexists. split; [reflexivity|].
  rewrite persistent_bucket.
  match goal with |- context [persistent ?x] =>
    destruct (persistent_frame x) as (-> & _ & _ & -> & -> & -> & ->)
  end.
  done.
Qed.

(** X15: [newSession] registers none of the subscriptions of the [Info] it
    is given.  A session it returns drops every event of guaranteed delivery
    class pushed to it before [subscribe] is called: the event is completed,
    no error is returned and neither queue receives it, also when
    [Info.Subscriptions] holds a subscription that matches the topic. *)
Theorem newSession_then_Push_drops i m cfg st st' s (e : common.Event) :
  newSession i m cfg st = (st', Returned s) →
  1 ≤ mqtt.QOS_ (common.Ctx e) →
  Push e s = dropped e s ∧
  qos0 (Push e s).1 = qos0 s ∧ qos1 (Push e s).1 = qos1 s.
Proof.
  intros Hnew Hq.
  destruct (newSession_returned i m cfg st st' s Hnew) as (_ & Hs & _).
  assert (Push e s = dropped e s) as ->; [|done].
  unfold Push. destruct (mqtt.QOS_ (common.Ctx e) =? 0) eqn:Hz;
    [apply N.eqb_eq in Hz; lia|].
  assert (mqtt.Trie_Match (mqtt.Topic (common.Ctx e)) (subs s) = []) as ->;
    [|done].
  apply Trie_Match_nil. intros p q. by rewrite Hs, lookup_empty.
Qed.

(** X16: the first [subscribe] on a session that [newSession] returned,
    with a batch that is not empty, registers the subscriptions of the
    [Info] the session was created with: the matcher then holds exactly
    those of them that the callback lets through, which is what
    [Info.Subscriptions] records, and all of them are bound in the
    exchange. *)
Theorem newSession_then_subscribe i m cfg st st' s
  (b : list mqtt.Subscription) (auth : option (string → string → bool)) :
  newSession i m cfg st = (st', Returned s) →
  b ≠ [] →
  subs (subscribe' b auth s) = kept Subscribe auth (held i) ∧
  held (info (subscribe' b auth s)) = kept Subscribe auth (held i) ∧
  dom (kept Subscribe auth (held i)) ⊆ exch (manager (subscribe' b auth s)).
Proof.
  intros Hnew Hb.
  destruct (newSession_returned i m cfg st st' s Hnew) as (Hi & Hs & _).
  destruct (subscribe_state Subscribe ErrSessionMessageTopicNotPermitted
              range_order range_order_perm b auth s Hb)
    as (Hm' & _ & _ & _ & Hs' & Hx' & _).
  rewrite Hi in Hm', Hs', Hx'. split_and!.
  - rewrite Hs', Hs, (right_id_L ∅ (∪)). apply filter_not_rejected_kept.
  - unfold held at 1. by rewrite Hm'.
  - rewrite Hx', <- dom_kept. intros k.
    rewrite !elem_of_difference, elem_of_union. tauto.
Qed.

End Creation.

Section Composition.

Context {Q0 Q1 B C : Type}.
Context `{!queue.Queue Q0, !queue.Queue Q1, !store.Bucket Info B}.

Local Abbreviation Session := (Session (Q0 := Q0) (Q1 := Q1) (B := B) (C := C)).

(** X17: after [unsubscribe], an event of guaranteed delivery class whose
    topic was matched only by patterns of the list is dropped by [Push]: it
    is completed and reaches neither queue. *)
Theorem unsubscribe_then_Push_drops (topics : list string) (s : Session)
  (e : common.Event) :
  1 ≤ mqtt.QOS_ (common.Ctx e) →
  (∀ p q, subs s !! p = Some q →
          mqtt.topic_match p (mqtt.Topic (common.Ctx e)) = true →
          p ∈ topics) →
  Push e (unsubscribe topics s) = dropped e (unsubscribe topics s).
Proof.
  intros Hq Honly.
  destruct (unsubscribe_registrations topics s) as (_ & Hs & _).
  unfold Push. destruct (mqtt.QOS_ (common.Ctx e) =? 0) eqn:Hz;
    [apply N.eqb_eq in Hz; lia|].
  assert (mqtt.Trie_Match (mqtt.Topic (common.Ctx e))
            (subs (unsubscribe topics s)) = []) as ->; [|done].
  apply Trie_Match_nil. intros p q Hp. rewrite Hs in Hp.
  apply map_lookup_filter_Some in Hp as [Hp Hout]. cbn [fst] in Hout.
  destruct (mqtt.topic_match p (mqtt.Topic (common.Ctx e))) eqn:Hm; [|done].
  destruct Hout. eauto.
Qed.

End Composition.

(** ** The further properties at concrete sessions *)

(** An event may be completed by the queue that takes it. *)
Example Push_on_eager_queue :
  qos0 (Push (event 1 "a/b") session_eager).1 =
    queue.Eager [event 1 "a/b"] ∧
  Done (Push (event 1 "a/b") session_eager).2 = true ∧
  Err (Push (event 1 "a/b") session_eager).2 = None ∧
  log_ (Push (event 1 "a/b") session_eager).1 = [].
Proof. vm_compute. auto. Qed.

Lemma subscribe_registers_what_is_held_witness :
  let s' := subscribe "sub" "topic not permitted" map_to_list
              [{| mqtt.SubTopic := "z"; mqtt.SubQOS := 0 |}]
              (Some reject_x) (created (client (Some {["x" := 0; "y" := 1]}))
                                 (∅ : gmap string Info)) in
  subs s' !! "y" = Some 1 ∧ "y" ∈ exch (manager s').
Proof.
  apply (subscribe_registers_what_is_held
           "sub" "topic not permitted" map_to_list
           (λ m, reflexivity (map_to_list m))).
  - discriminate.
  - vm_compute. reflexivity.
Defined.

Lemma subscribe_fails_closed_witness :
  let s' := subscribe "sub" "topic not permitted" map_to_list
              [{| mqtt.SubTopic := "z"; mqtt.SubQOS := 0 |}]
              (Some reject_x) session_xy in
  subs s' !! "x" = None ∧ "x" ∉ exch (manager s').
Proof.
  apply (proj2 (subscribe_fails_closed
                  "sub" "topic not permitted" map_to_list
                  (λ m, reflexivity (map_to_list m))
                  [{| mqtt.SubTopic := "z"; mqtt.SubQOS := 0 |}]
                  (Some reject_x) session_xy "x" ltac:(discriminate))).
  - exists 0. reflexivity.
  - reflexivity.
Defined.


Lemma unsubscribe_touches_listed_only_witness :
  held (info (unsubscribe ["c"] session_plain)) !! "a/b" =
    held (info session_plain) !! "a/b" ∧
  subs (unsubscribe ["c"] session_plain) !! "a/b" =
    subs session_plain !! "a/b" ∧
  ("a/b" ∈ exch (manager (unsubscribe ["c"] session_plain)) ↔
   "a/b" ∈ exch (manager session_plain)).
Proof.
  apply (proj1 (unsubscribe_touches_listed_only ["c"] session_plain) "a/b").
  intros Hin. apply list_elem_of_singleton in Hin. discriminate.
Defined.

Lemma in_sync_preserved_witness :
  in_sync (subscribe "sub" "topic not permitted" map_to_list
             [{| mqtt.SubTopic := "z"; mqtt.SubQOS := 0 |}] (Some reject_x)
             session_xy) ∧
  in_sync (unsubscribe ["x"; "q"] session_xy) ∧
  in_sync (Push (event 1 "x") session_xy).1.
Proof.
  destruct (in_sync_preserved "sub" "topic not permitted" map_to_list
              (λ m, reflexivity (map_to_list m)) session_xy)
    as (Hsub & Hunsub & _ & _ & Hpush).
  - split; reflexivity.
  - split; [apply Hsub|]. split; [apply Hunsub|apply Hpush].
Defined.

Lemma will_changes_with_update_only_witness :
  will (subscribe "sub" "topic not permitted" map_to_list
          [{| mqtt.SubTopic := "z"; mqtt.SubQOS := 0 |}] (Some reject_x)
          session_xy) = will session_xy.
Proof.
  apply (proj1 (will_changes_with_update_only
                  "sub" "topic not permitted" map_to_list
                  (λ m, reflexivity (map_to_list m)) session_xy)).
Defined.

Lemma delivery_state_kept_witness :
  delivery_state
    (subscribe "sub" "topic not permitted" map_to_list
       [{| mqtt.SubTopic := "z"; mqtt.SubQOS := 0 |}] (Some reject_x)
       (Push (event 1 "x") session_xy).1) =
  delivery_state (Push (event 1 "x") session_xy).1.
Proof.
  apply (proj1 (delivery_state_kept
                  "sub" "topic not permitted" map_to_list
                  (λ m, reflexivity (map_to_list m))
                  (Push (event 1 "x") session_xy).1)).
Defined.

Lemma mutations_are_persisted_witness :
  persisted (subscribe "sub" "topic not permitted" map_to_list
               [{| mqtt.SubTopic := "z"; mqtt.SubQOS := 0 |}] (Some reject_x)
               session_xy) ∧
  persisted (unsubscribe ["x"] session_xy).
Proof.
  destruct (mutations_are_persisted "sub" "topic not permitted" map_to_list
              (λ m, reflexivity (map_to_list m)) session_xy)
    as (_ & _ & Hsub & Hunsub).
  split.
  - apply Hsub. discriminate.
  - apply Hunsub. discriminate.
Defined.

Example newSession_of_client :
  newSession (client (Some {["a/b" := 1]})) manager_empty config_small
    (∅ : gset string) =
  ({["c"]}, Returned session_new).
Proof. vm_compute. reflexivity. Qed.

Lemma newSession_outcome_witness :
  newSession (Q0 := queue.memory) (Q1 := queue.memory) (C := N)
    client_unnamed manager_empty config_small (∅ : gset string) =
  (∅, Failed [log.Error "failed to create queue bucket"
                (log.Error_ "bucket name is empty")]
        "bucket name is empty") ∧
  newSession (Q0 := queue.memory) (Q1 := queue.memory) (C := N)
    (client (Some {["a/b" := 1]})) manager_empty config_negative
    (∅ : gset string) =
  (∅, Panicked).
Proof.
  split.
  - exact (newSession_outcome (Q0 := queue.memory) (Q1 := queue.memory)
             (C := N) client_unnamed manager_empty config_small ∅).
  - exact (newSession_outcome (Q0 := queue.memory) (Q1 := queue.memory)
             (C := N) (client (Some {["a/b" := 1]})) manager_empty
             config_negative ∅).
Defined.

Lemma newSession_then_Push_drops_witness :
  Push (event 1 "a/b") session_new = dropped (event 1 "a/b") session_new ∧
  qos0 (Push (event 1 "a/b") session_new).1 = [] ∧
  qos1 (Push (event 1 "a/b") session_new).1 = [].
Proof.
  apply (newSession_then_Push_drops
           (client (Some {["a/b" := 1]})) manager_empty config_small
           (∅ : gset string) {["c"]} session_new (event 1 "a/b")).
  - vm_compute. reflexivity.
  - simpl. lia.
Defined.

Lemma newSession_then_subscribe_witness :
  let s' := subscribe "sub" "topic not permitted" map_to_list
              [{| mqtt.SubTopic := "z"; mqtt.SubQOS := 0 |}] None
              session_new in
  subs s' = kept "sub" None (held (client (Some {["a/b" := 1]}))) ∧
  held (info s') = kept "sub" None (held (client (Some {["a/b" := 1]}))) ∧
  dom (kept "sub" None (held (client (Some {["a/b" := 1]}))))
    ⊆ exch (manager s').
Proof.
  apply (newSession_then_subscribe
           "sub" "topic not permitted" map_to_list
           (λ m, reflexivity (map_to_list m))
           (client (Some {["a/b" := 1]})) manager_empty config_small
           (∅ : gset string) {["c"]} session_new).
  - vm_compute. reflexivity.
  - discriminate.
Defined.

Lemma unsubscribe_then_Push_drops_witness :
  Push (event 1 "a/b") (unsubscribe ["a/b"; "a/#"] session_overlap) =
  dropped (event 1 "a/b") (unsubscribe ["a/b"; "a/#"] session_overlap).
Proof.
  apply (unsubscribe_then_Push_drops ["a/b"; "a/#"] session_overlap
           (event 1 "a/b")).
  - simpl. lia.
  - intros p q Hp _.
    change (({["a/#" := 0; "a/b" := 1]} : gmap string N) !! p = Some q) in Hp.
    apply lookup_insert_Some in Hp as [[<- _]|[_ Hp]].
    + right. left.
    + apply lookup_singleton_Some in Hp as [<- _]. left.
Defined.
